(** * Telemetry ingestion pipeline ([process_data.py]): model and properties

    The script reads a CSV in chunks, normalises and resolves the header,
    decides between the trip-level and the time-series path, validates the
    rows of each chunk and aggregates the valid ones per trip.

    Modelling choices, all of them about pandas and not about the script:
    - a [DataFrame] is a header and its rows of cells; a cell is [None] for
      NaN and [Some s] for the text read from the file;
    - [pd.to_datetime] and [pd.to_numeric] (both with [errors="coerce"]) are
      taken as cell-wise functions, the fields of the class [Pandas];
      instants are nanoseconds since the epoch; the class [PandasSeries] and
      [process_data_series] let pandas decide them, and the typing of
      [read_csv], on the column of each chunk;
    - float64 values are exact rationals ([Q]), sums and quotients without
      rounding;
    - [str.strip] and [str.lower] are modelled on ASCII;
    - a label carried by two columns makes the selections of the script
      frames instead of series; the run is then [None];
    - [sort_values] is a stable sort and [groupby] orders its keys as
      text. *)

From Stdlib Require Import QArith Ascii String.
From stdpp Require Import base strings list gmap sorting pretty.

(** ** Configuration *)

Definition CHUNK_SIZE : positive := 100000.
Definition GAP_THRESHOLD_SEC : Q := 300%Q.

(** The sensor columns, the keys of [VALID_RANGES]. *)
Inductive sensor :=
  | SpeedKmph | BatteryVoltage | BatteryCurrent | SocPercent | MotorTempC | CellTempC.

#[global] Instance sensor_eq_dec : EqDecision sensor.
Proof. solve_decision. Defined.

Definition sensor_name (s : sensor) : string :=
  match s with
  | SpeedKmph => "speed_kmph"
  | BatteryVoltage => "battery_voltage"
  | BatteryCurrent => "battery_current"
  | SocPercent => "soc_percent"
  | MotorTempC => "motor_temp_c"
  | CellTempC => "cell_temp_c"
  end.

Definition REQUIRED_COLUMNS : list string :=
  [ "trip_id"; "timestamp"; "speed_kmph"; "battery_voltage"; "battery_current";
    "soc_percent"; "motor_temp_c"; "cell_temp_c" ].

Definition VALID_RANGES : list (sensor * (Q * Q)) :=
  [ (SpeedKmph, (0, 250)); (BatteryVoltage, (200, 1000));
    (BatteryCurrent, (-500, 500)); (SocPercent, (0, 100));
    (MotorTempC, (-40, 200)); (CellTempC, (-40, 100)) ]%Q.

Definition COLUMN_ALIASES : list (string * list string) :=
  [ ("trip_id", ["trip_id"; "tripid"; "vehicle_id"; "vehicleid"]);
    ("timestamp", ["timestamp"; "time"; "utc_timestamp"; "datetime"]);
    ("speed_kmph", ["speed_kmph"; "speed"; "vehicle_speed"]);
    ("battery_voltage", ["battery_voltage"; "batteryvoltage"; "voltage"]);
    ("battery_current", ["battery_current"; "batterycurrent"; "current"]);
    ("soc_percent", ["soc_percent"; "soc"; "state_of_charge"]);
    ("motor_temp_c", ["motor_temp_c"; "motortemp"; "motor_temperature"]);
    ("cell_temp_c", ["cell_temp_c"; "celltemp"; "cell_temperature"]) ].

(** ** Data frames *)

Definition cell := option string.

Record DataFrame := {
  columns : list string;
  rows : list (list cell);
}.

(** ** Helpers *)

(** [str.strip] and [str.lower], on ASCII. *)
Definition is_space (a : ascii) : bool :=
  let n := nat_of_ascii a in
  ((9 <=? n) && (n <=? 13)) || ((28 <=? n) && (n <=? 32)).

Definition lower_ascii (a : ascii) : ascii :=
  let n := nat_of_ascii a in
  if (65 <=? n) && (n <=? 90) then ascii_of_nat (n + 32) else a.

Fixpoint lstrip (l : list ascii) : list ascii :=
  match l with
  | a :: l' => if is_space a then lstrip l' else l
  | [] => []
  end.

Definition strip_ascii (l : list ascii) : list ascii :=
  rev (lstrip (rev (lstrip l))).

Definition str_strip (s : string) : string :=
  string_of_list_ascii (strip_ascii (list_ascii_of_string s)).

Definition str_lower (s : string) : string :=
  string_of_list_ascii (map lower_ascii (list_ascii_of_string s)).

Definition normalize_columns (df : DataFrame) : DataFrame :=
  {| columns := map (λ c, str_lower (str_strip c)) (columns df);
     rows := rows df |}.

(** The inner loop of [resolve_columns]: the first column, in header order,
    that is one of the aliases. *)
Definition first_alias_column (aliases cols : list string) : option string :=
  List.find (λ col, bool_decide (col ∈ aliases)) cols.

Definition rename_map_step (cols : list string) (rename_map : gmap string string)
    (entry : string * list string) : gmap string string :=
  match first_alias_column entry.2 cols with
  | Some col => <[col := entry.1]> rename_map
  | None => rename_map
  end.

Definition rename_map_of (table : list (string * list string))
    (cols : list string) : gmap string string :=
  foldl (rename_map_step cols) ∅ table.

Definition rename_map (cols : list string) : gmap string string :=
  rename_map_of COLUMN_ALIASES cols.

Definition rename (m : gmap string string) (cols : list string) : list string :=
  map (λ c, default c (m !! c)) cols.

Definition resolve_columns (df : DataFrame) : DataFrame :=
  {| columns := rename (rename_map (columns df)) (columns df);
     rows := rows df |}.

Definition trip_level_signals : list string :=
  [ "duration_minutes"; "distance_km"; "speed_avg"; "speed_max";
    "energy_consumed_kwh" ].

Definition is_trip_level_schema (df : DataFrame) : bool :=
  existsb (λ c, bool_decide (c ∈ columns df)) trip_level_signals.

(** ** Column selection *)

(** [df[c]] row by row: the cell under the first column labelled [c]; a row
    shorter than the header is padded with NaN, as [read_csv] does. A column
    that is absent reads as NaN, which is what the backfill
    [chunk[col] = np.nan] and [df.get(col)] (an all-null column) give. *)
Fixpoint column_index (c : string) (cols : list string) : option nat :=
  match cols with
  | [] => None
  | c' :: cols' => if String.eqb c' c then Some O else S <$> column_index c cols'
  end.

Definition series (c : string) (cols : list string) (row : list cell) : cell :=
  match column_index c cols with
  | Some i => default None (row !! i)
  | None => None
  end.

Definition label_count (c : string) (cols : list string) : nat :=
  length (List.filter (String.eqb c) cols).

(** A label carried by two columns selects a frame, not a series, and the
    operations of the script on that selection raise. *)
Definition unique_labels (names cols : list string) : bool :=
  forallb (λ c, label_count c cols <=? 1) names.

(** The header paired with the cells of one row. *)
Fixpoint labelled (cols : list string) (row : list cell) : list (string * cell) :=
  match cols with
  | [] => []
  | c :: cols' => (c, default None (head row)) :: labelled cols' (tail row)
  end.

(** ** Coercions of pandas *)

Class Pandas := {
  to_datetime : string → option Z;
  to_numeric : string → option Q;
}.

(** ** Time-series path: one validated row *)

Record reading := {
  trip_id : cell;
  timestamp : option Z;
  speed_kmph : option Q;
  battery_voltage : option Q;
  battery_current : option Q;
  soc_percent : option Q;
  motor_temp_c : option Q;
  cell_temp_c : option Q;
  other_columns : list (string * cell);
  rejection_reasons : string;
  salvage_notes : string;
  validation_status : string;
}.

Definition DERIVED_COLUMNS : list string :=
  [ "rejection_reasons"; "salvage_notes"; "validation_status" ].

(** The labels the loop body selects or assigns. *)
Definition SELECTED_COLUMNS : list string :=
  REQUIRED_COLUMNS ++ DERIVED_COLUMNS.

Definition get_sensor (s : sensor) (r : reading) : option Q :=
  match s with
  | SpeedKmph => speed_kmph r
  | BatteryVoltage => battery_voltage r
  | BatteryCurrent => battery_current r
  | SocPercent => soc_percent r
  | MotorTempC => motor_temp_c r
  | CellTempC => cell_temp_c r
  end.

Definition set_sensor (s : sensor) (v : option Q) (r : reading) : reading :=
  {| trip_id := trip_id r;
     timestamp := timestamp r;
     speed_kmph := if decide (s = SpeedKmph) then v else speed_kmph r;
     battery_voltage := if decide (s = BatteryVoltage) then v else battery_voltage r;
     battery_current := if decide (s = BatteryCurrent) then v else battery_current r;
     soc_percent := if decide (s = SocPercent) then v else soc_percent r;
     motor_temp_c := if decide (s = MotorTempC) then v else motor_temp_c r;
     cell_temp_c := if decide (s = CellTempC) then v else cell_temp_c r;
     other_columns := other_columns r;
     rejection_reasons := rejection_reasons r;
     salvage_notes := salvage_notes r;
     validation_status := validation_status r |}.

Definition add_rejection_reason (tag : string) (r : reading) : reading :=
  {| trip_id := trip_id r;
     timestamp := timestamp r;
     speed_kmph := speed_kmph r;
     battery_voltage := battery_voltage r;
     battery_current := battery_current r;
     soc_percent := soc_percent r;
     motor_temp_c := motor_temp_c r;
     cell_temp_c := cell_temp_c r;
     other_columns := other_columns r;
     rejection_reasons := rejection_reasons r +:+ tag;
     salvage_notes := salvage_notes r;
     validation_status := validation_status r |}.

Definition add_salvage_note (tag : string) (r : reading) : reading :=
  {| trip_id := trip_id r;
     timestamp := timestamp r;
     speed_kmph := speed_kmph r;
     battery_voltage := battery_voltage r;
     battery_current := battery_current r;
     soc_percent := soc_percent r;
     motor_temp_c := motor_temp_c r;
     cell_temp_c := cell_temp_c r;
     other_columns := other_columns r;
     rejection_reasons := rejection_reasons r;
     salvage_notes := salvage_notes r +:+ tag;
     validation_status := validation_status r |}.

Definition set_validation_status (st : string) (r : reading) : reading :=
  {| trip_id := trip_id r;
     timestamp := timestamp r;
     speed_kmph := speed_kmph r;
     battery_voltage := battery_voltage r;
     battery_current := battery_current r;
     soc_percent := soc_percent r;
     motor_temp_c := motor_temp_c r;
     cell_temp_c := cell_temp_c r;
     other_columns := other_columns r;
     rejection_reasons := rejection_reasons r;
     salvage_notes := salvage_notes r;
     validation_status := st |}.

Definition isna {A} (v : option A) : bool :=
  match v with None => true | Some _ => false end.

(** [Series.between(lo, hi)], inclusive on both sides, false on NaN. *)
Definition between (lo hi : Q) (v : option Q) : bool :=
  match v with
  | Some x => Qle_bool lo x && Qle_bool x hi
  | None => false
  end.

Definition out_of_range_tag (s : sensor) : string :=
  "|" +:+ sensor_name s +:+ "_out_of_range".

Section validation.
Context `{Pandas}.

Definition coerce_float (c : cell) : option Q := c ≫= to_numeric.

(** Backfill of the required columns, the three derived columns, timestamp
    parsing and numeric coercion. *)
Definition load_row (cols : list string) (row : list cell) : reading :=
  {| trip_id := series "trip_id" cols row;
     timestamp := series "timestamp" cols row ≫= to_datetime;
     speed_kmph := coerce_float (series "speed_kmph" cols row);
     battery_voltage := coerce_float (series "battery_voltage" cols row);
     battery_current := coerce_float (series "battery_current" cols row);
     soc_percent := coerce_float (series "soc_percent" cols row);
     motor_temp_c := coerce_float (series "motor_temp_c" cols row);
     cell_temp_c := coerce_float (series "cell_temp_c" cols row);
     other_columns :=
       List.filter
         (λ p, negb (bool_decide (p.1 ∈ SELECTED_COLUMNS)))
         (labelled cols row);
     rejection_reasons := "";
     salvage_notes := "";
     validation_status := "valid" |}.

(** Hard rejects *)
Definition hard_rejects (r : reading) : reading :=
  let r := if isna (trip_id r) then add_rejection_reason "|missing_trip_id" r else r in
  if isna (timestamp r) then add_rejection_reason "|invalid_timestamp" r else r.

(** Sensor validation (partial salvage): one turn of the loop *)
Definition salvage_step (r : reading) (entry : sensor * (Q * Q)) : reading :=
  let '(col, (lo, hi)) := entry in
  let invalid := negb (between lo hi (get_sensor col r)) in
  if invalid then add_salvage_note (out_of_range_tag col) (set_sensor col None r)
  else r.

Definition sensor_validation (r : reading) : reading :=
  foldl salvage_step r VALID_RANGES.

(** Fully invalid sensor rows *)
Definition all_nan (r : reading) : bool :=
  forallb (λ entry : sensor * (Q * Q), isna (get_sensor entry.1 r)) VALID_RANGES.

Definition fully_invalid (r : reading) : reading :=
  if all_nan r then add_rejection_reason "|all_sensors_invalid" r else r.

(** Final classification *)
Definition rejected_mask (r : reading) : bool :=
  negb (String.eqb (rejection_reasons r) "").

Definition final_classification (r : reading) : reading :=
  if rejected_mask r then set_validation_status "rejected" r else r.

Definition validate_row (cols : list string) (row : list cell) : reading :=
  final_classification
    (fully_invalid (sensor_validation (hard_rejects (load_row cols row)))).

(** The body of the loop over the chunks: the validated and the rejected
    rows of one chunk. *)
Definition validate_chunk (chunk : DataFrame)
    : option (list reading * list reading) :=
  let chunk := normalize_columns chunk in
  let chunk := resolve_columns chunk in
  if unique_labels SELECTED_COLUMNS (columns chunk) then
    let checked := map (validate_row (columns chunk)) (rows chunk) in
    Some (List.filter (λ r, negb (rejected_mask r)) checked,
          List.filter rejected_mask checked)
  else None.
End validation.

(** ** Time-series path: trip aggregation *)

Module TripMetrics.
(** One row of [final_metrics_df], the dictionary appended to [metrics]. *)
Record t := {
  trip_id : string;
  rows : nat;
  duration_minutes : Q;
  gap_count : nat;
  max_speed : option Q;
  avg_speed : option Q;
  distance_km : Q;
  max_motor_temp : option Q;
  max_cell_temp : option Q;
  min_battery_voltage : option Q;
  max_current : option Q;
}.

(** The keys of that dictionary, the columns of a frame built from a
    non-empty list of them. *)
Definition keys : list string :=
  [ "trip_id"; "rows"; "duration_minutes"; "gap_count"; "max_speed";
    "avg_speed"; "distance_km"; "max_motor_temp"; "max_cell_temp";
    "min_battery_voltage"; "max_current" ].
End TripMetrics.

(** A stable sort; [le x y] puts [x] before an equal [y] that followed it. *)
Fixpoint insert_sorted {A} (le : A → A → bool) (x : A) (l : list A) : list A :=
  match l with
  | [] => [x]
  | y :: l' => if le x y then x :: l else y :: insert_sorted le x l'
  end.

Definition stable_sort {A} (le : A → A → bool) (l : list A) : list A :=
  foldr (insert_sorted le) [] l.

(** Ascending instants, NaT last. *)
Definition instant_le (a b : option Z) : bool :=
  match a, b with
  | Some x, Some y => (x <=? y)%Z
  | Some _, None => true
  | None, Some _ => false
  | None, None => true
  end.

(** [g.sort_values("timestamp")]; rows with equal instants keep their order. *)
Definition sort_values_timestamp (g : list reading) : list reading :=
  stable_sort (λ a b, instant_le (timestamp a) (timestamp b)) g.

(** [Series.diff()]: NaT first, then each instant minus the one before. *)
Definition diff (ts : list (option Z)) : list (option Z) :=
  match ts with
  | [] => []
  | _ :: later =>
      None :: zip_with (λ prev cur,
                          match prev, cur with
                          | Some a, Some b => Some (b - a)%Z
                          | _, _ => None
                          end) ts later
  end.

(** [.dt.total_seconds()] of a nanosecond difference. *)
Definition total_seconds (ns : Z) : Q := ns # 1000000000.

(** [.clip(lower=0)] *)
Definition clip_lower_0 (x : Q) : Q := if Qle_bool 0 x then x else 0%Q.

Definition dt_sec (g : list reading) : list (option Q) :=
  map (fmap (λ ns, clip_lower_0 (total_seconds ns))) (diff (map timestamp g)).

Definition is_gap (dt : option Q) : bool :=
  match dt with
  | Some x => negb (Qle_bool x GAP_THRESHOLD_SEC)
  | None => false
  end.

Definition Qsum (l : list Q) : Q := foldr Qplus 0%Q l.

Definition fillna_0 (v : option Q) : Q := default 0%Q v.

(** [sum()], [max()], [min()] and [mean()] with [skipna]; the last three are
    NaN on an all-null series. *)
Definition sum_skipna (l : list (option Q)) : Q := Qsum (omap id l).

Definition max_skipna (l : list (option Q)) : option Q :=
  foldl (λ acc v,
           match acc, v with
           | Some a, Some b => Some (if Qle_bool a b then b else a)
           | None, _ => v
           | _, None => acc
           end) None l.

Definition min_skipna (l : list (option Q)) : option Q :=
  foldl (λ acc v,
           match acc, v with
           | Some a, Some b => Some (if Qle_bool a b then a else b)
           | None, _ => v
           | _, None => acc
           end) None l.

Definition mean_skipna (l : list (option Q)) : option Q :=
  match omap id l with
  | [] => None
  | xs => Some (Qsum xs / inject_Z (Z.of_nat (length xs)))%Q
  end.

(** The body of the loop over the groups, after the sort. *)
Definition trip_row (trip : string) (g : list reading) : TripMetrics.t :=
  let dt := dt_sec g in
  let duration_sec := sum_skipna dt in
  let distance_km :=
    Qsum (zip_with (λ v d, fillna_0 v * fillna_0 d / 3600)%Q (map speed_kmph g) dt) in
  {| TripMetrics.trip_id := trip;
     TripMetrics.rows := length g;
     TripMetrics.duration_minutes := (duration_sec / 60)%Q;
     TripMetrics.gap_count := length (List.filter is_gap dt);
     TripMetrics.max_speed := max_skipna (map speed_kmph g);
     TripMetrics.avg_speed := mean_skipna (map speed_kmph g);
     TripMetrics.distance_km := distance_km;
     TripMetrics.max_motor_temp := max_skipna (map motor_temp_c g);
     TripMetrics.max_cell_temp := max_skipna (map cell_temp_c g);
     TripMetrics.min_battery_voltage := min_skipna (map battery_voltage g);
     TripMetrics.max_current := max_skipna (map battery_current g) |}.

(** [groupby("trip_id")]: the distinct non-null keys in ascending order, each
    with its rows in frame order. *)
Definition trip_keys (df : list reading) : list string :=
  stable_sort String.leb (remove_dups (omap trip_id df)).

Definition group (trip : string) (df : list reading) : list reading :=
  List.filter (λ r, bool_decide (trip_id r = Some trip)) df.

Definition metrics (cleaned_df : list reading) : list TripMetrics.t :=
  match cleaned_df with
  | [] => []
  | _ :: _ =>
      map (λ trip, trip_row trip (sort_values_timestamp (group trip cleaned_df)))
          (trip_keys cleaned_df)
  end.

(** The columns of [pd.DataFrame(metrics)]: the keys of the dictionaries, and
    none at all for an empty list. *)
Definition final_metrics_columns (ms : list TripMetrics.t) : list string :=
  match ms with
  | [] => []
  | _ :: _ => TripMetrics.keys
  end.

(** ** Trip-level path *)

Definition TRIP_LEVEL_SOURCES : list string :=
  [ "trip_id"; "duration_minutes"; "speed_avg"; "distance_km"; "speed_max";
    "motor_temp_max"; "cell_temp_max"; "energy_consumed_kwh" ].

Definition TRIP_LEVEL_COLUMNS : list string :=
  [ "trip_id"; "duration_minutes"; "avg_speed"; "distance_km"; "max_speed";
    "max_motor_temp"; "max_cell_temp"; "energy_consumed_kwh" ].

(** From [resolve_columns] to the two frames written; [None] where
    [df["trip_id"]] raises [KeyError] or a source label is duplicated. *)
Definition trip_level (df : DataFrame) : option (DataFrame * DataFrame) :=
  let df := resolve_columns df in
  match column_index "trip_id" (columns df) with
  | None => None
  | Some _ =>
      if unique_labels TRIP_LEVEL_SOURCES (columns df) then
        let df :=
          {| columns := columns df;
             rows := List.filter (λ row, negb (isna (series "trip_id" (columns df) row)))
                       (rows df) |} in
        let trip_metrics_df :=
          {| columns := TRIP_LEVEL_COLUMNS;
             rows := map (λ row, map (λ c, series c (columns df) row) TRIP_LEVEL_SOURCES)
                       (rows df) |} in
        Some (trip_metrics_df, df)
      else None
  end.

(** ** The run *)

Fixpoint chunk_rows {A} (fuel n : nat) (l : list A) : list (list A) :=
  match fuel, l with
  | S fuel', _ :: _ => take n l :: chunk_rows fuel' n (drop n l)
  | _, _ => []
  end.

(** [pd.read_csv(CSV_PATH, chunksize=...)]: the first chunk and the rest of
    the reader; the first chunk exists also for a file without rows. *)
Definition read_csv (chunksize : positive) (csv : DataFrame)
    : DataFrame * list DataFrame :=
  let frames :=
    map (λ rs, {| columns := columns csv; rows := rs |})
        (chunk_rows (length (rows csv)) (Pos.to_nat chunksize) (rows csv)) in
  match frames with
  | [] => ({| columns := columns csv; rows := [] |}, [])
  | first_chunk :: reader => (first_chunk, reader)
  end.

(** [pd.concat] of frames that share their header. *)
Definition concat_frames (first : DataFrame) (others : list DataFrame) : DataFrame :=
  {| columns := columns first;
     rows := concat (map rows (first :: others)) |}.

Inductive outputs :=
  | TripLevel (trip_metrics_df cleaned : DataFrame)
  | TimeSeries (cleaned_df rejected_df : list reading)
               (final_metrics_df : list TripMetrics.t).

(** The columns of [output/trip_metrics.csv]. *)
Definition trip_metrics_columns (o : outputs) : list string :=
  match o with
  | TripLevel trip_metrics_df _ => columns trip_metrics_df
  | TimeSeries _ _ final_metrics_df => final_metrics_columns final_metrics_df
  end.

Section run.
Context `{Pandas}.

(** The loop over the chunks and the two concatenations after it. *)
Definition time_series (chunks : list DataFrame) : option outputs :=
  parts ← mapM validate_chunk chunks;
  let cleaned_df := concat (map fst parts) in
  let rejected_df := concat (map snd parts) in
  Some (TimeSeries cleaned_df rejected_df (metrics cleaned_df)).

(** The script from the first chunk on. *)
Definition process_chunks (first_chunk : DataFrame) (reader : list DataFrame)
    : option outputs :=
  let first_chunk := normalize_columns first_chunk in
  if is_trip_level_schema first_chunk then
    let df := concat_frames first_chunk (map normalize_columns reader) in
    '(trip_metrics_df, df) ← trip_level df;
    Some (TripLevel trip_metrics_df df)
  else
    time_series (first_chunk :: reader).

Definition process_data (chunksize : positive) (csv : DataFrame) : option outputs :=
  let '(first_chunk, reader) := read_csv chunksize csv in
  process_chunks first_chunk reader.
End run.


(** ** The dashboard ([app.py]): trip clustering *)

Definition CLUSTER_SIZE : Z := 50.

(** The first and the last trip index of the bucket of [idx]. *)
Definition cluster_start (idx size : Z) : Z :=
  (((idx - 1) `div` size) * size + 1)%Z.

Definition cluster_end (idx total size : Z) : Z :=
  Z.min (cluster_start idx size + size - 1)%Z total.

(** [make_cluster_label]; [None] where the floor division by zero raises. *)
Definition make_cluster_label (idx total size : Z) : option string :=
  if decide (size = 0%Z) then None
  else Some (pretty (cluster_start idx size) +:+ "-"
             +:+ pretty (cluster_end idx total size)).


(** ** Coercions decided on the column of a chunk *)

(** pandas works on the whole column of a chunk: [pd.read_csv] infers the
    dtype of each column from the rows of the chunk, and
    [pd.to_datetime(..., errors="coerce", utc=True)] and
    [pd.to_numeric(..., errors="coerce")] take and return a column.  The
    functions of [Pandas] above are the case in which each of them treats a
    cell by itself. *)
Class PandasSeries := {
  read_series : list cell → list cell;
  to_datetime_series : list cell → list (option Z);
  to_numeric_series : list cell → list (option Q);
}.

(** The script with any body of the loop over the chunks. *)
Section run_by.
Variable validate_chunk_by : DataFrame → option (list reading * list reading).

Definition time_series_by (chunks : list DataFrame) : option outputs :=
  parts ← mapM validate_chunk_by chunks;
  let cleaned_df := concat (map fst parts) in
  let rejected_df := concat (map snd parts) in
  Some (TimeSeries cleaned_df rejected_df (metrics cleaned_df)).

Definition process_chunks_by (first_chunk : DataFrame) (reader : list DataFrame)
    : option outputs :=
  let first_chunk := normalize_columns first_chunk in
  if is_trip_level_schema first_chunk then
    let df := concat_frames first_chunk (map normalize_columns reader) in
    '(trip_metrics_df, df) ← trip_level df;
    Some (TripLevel trip_metrics_df df)
  else
    time_series_by (first_chunk :: reader).
End run_by.

Section series.
Context `{PandasSeries}.

(** The column at position [j] of the rows of a chunk. *)
Definition column_at (j : nat) (rs : list (list cell)) : list cell :=
  map (λ row, default None (row !! j)) rs.

(** The rows of a chunk as [pd.read_csv] types them, column by column. *)
Definition typed_rows (rs : list (list cell)) : list (list cell) :=
  imap (λ i row,
          imap (λ j c, default c (read_series (column_at j rs) !! i)) row)
       rs.

Definition typed_chunk (chunk : DataFrame) : DataFrame :=
  {| columns := columns chunk; rows := typed_rows (rows chunk) |}.

(** [pd.read_csv(CSV_PATH, chunksize=...)], each chunk typed on its own. *)
Definition read_csv_series (chunksize : positive) (csv : DataFrame)
    : DataFrame * list DataFrame :=
  let '(first_chunk, reader) := read_csv chunksize csv in
  (typed_chunk first_chunk, map typed_chunk reader).

(** [chunk[c]], NaN throughout for a backfilled column. *)
Definition column_of (c : string) (chunk : DataFrame) : list cell :=
  map (series c (columns chunk)) (rows chunk).

Definition at_row {A} (col : list (option A)) (i : nat) : option A :=
  default None (col !! i).

(** Backfill of the required columns, the three derived columns, timestamp
    parsing and numeric coercion, on the columns of the chunk. *)
Definition load_chunk (chunk : DataFrame) : list reading :=
  let cols := columns chunk in
  let timestamp_col := to_datetime_series (column_of "timestamp" chunk) in
  let speed_kmph_col := to_numeric_series (column_of "speed_kmph" chunk) in
  let battery_voltage_col := to_numeric_series (column_of "battery_voltage" chunk) in
  let battery_current_col := to_numeric_series (column_of "battery_current" chunk) in
  let soc_percent_col := to_numeric_series (column_of "soc_percent" chunk) in
  let motor_temp_c_col := to_numeric_series (column_of "motor_temp_c" chunk) in
  let cell_temp_c_col := to_numeric_series (column_of "cell_temp_c" chunk) in
  imap (λ i row,
          {| trip_id := series "trip_id" cols row;
             timestamp := at_row timestamp_col i;
             speed_kmph := at_row speed_kmph_col i;
             battery_voltage := at_row battery_voltage_col i;
             battery_current := at_row battery_current_col i;
             soc_percent := at_row soc_percent_col i;
             motor_temp_c := at_row motor_temp_c_col i;
             cell_temp_c := at_row cell_temp_c_col i;
             other_columns :=
               List.filter
                 (λ p, negb (bool_decide (p.1 ∈ SELECTED_COLUMNS)))
                 (labelled cols row);
             rejection_reasons := "";
             salvage_notes := "";
             validation_status := "valid" |})
       (rows chunk).

(** Hard rejects, sensor validation, fully invalid rows and the final
    classification of a loaded row. *)
Definition check_row (r : reading) : reading :=
  final_classification (fully_invalid (sensor_validation (hard_rejects r))).

(** The body of the loop over the chunks. *)
Definition validate_chunk_series (chunk : DataFrame)
    : option (list reading * list reading) :=
  let chunk := normalize_columns chunk in
  let chunk := resolve_columns chunk in
  if unique_labels SELECTED_COLUMNS (columns chunk) then
    let checked := map check_row (load_chunk chunk) in
    Some (List.filter (λ r, negb (rejected_mask r)) checked,
          List.filter rejected_mask checked)
  else None.

Definition process_chunks_series (first_chunk : DataFrame)
    (reader : list DataFrame) : option outputs :=
  process_chunks_by validate_chunk_series first_chunk reader.

Definition process_data_series (chunksize : positive) (csv : DataFrame)
    : option outputs :=
  let '(first_chunk, reader) := read_csv_series chunksize csv in
  process_chunks_series first_chunk reader.
End series.

(** Each cell read and coerced by itself. *)
Definition cell_by_cell (P : Pandas) : PandasSeries :=
  {| read_series := λ col, col;
     to_datetime_series := map (λ c, c ≫= to_datetime);
     to_numeric_series := map coerce_float |}.


(** ** Notions used to state the properties *)

(** [tag] occurs in [s]. *)
Definition occurs_in (tag s : string) : Prop :=
  ∃ before after, s = before +:+ tag +:+ after.

(** The sensor cell of a row is null after coercion: its column is absent
    (and backfilled), the cell is empty, or its text is not a number. *)
Definition null_after_coercion `{Pandas} (s : sensor) (cols : list string)
    (row : list cell) : Prop :=
  column_index (sensor_name s) cols = None
  ∨ series (sensor_name s) cols row = None
  ∨ ∃ text, series (sensor_name s) cols row = Some text ∧ to_numeric text = None.

(** The three grounds for rejecting a row, on the row as validated. *)
Definition rejection_grounds (r : reading) : Prop :=
  trip_id r = None ∨ timestamp r = None ∨ ∀ s, get_sensor s r = None.

(** Unsigned decimal numerals, for the examples. *)
Definition digit_value (a : ascii) : option Z :=
  let n := nat_of_ascii a in
  if (48 <=? n) && (n <=? 57) then Some (Z.of_nat (n - 48)) else None.

Fixpoint decimal_from (acc : Z) (s : string) : option Z :=
  match s with
  | EmptyString => Some acc
  | String a s' =>
      match digit_value a with
      | Some d => decimal_from (10 * acc + d) s'
      | None => None
      end
  end.

Definition decimal (s : string) : option Z :=
  match s with
  | EmptyString => None
  | _ => decimal_from 0 s
  end.

(** Coercions for the examples: decimal numerals as numbers, and two
    timestamps ten minutes apart. *)
Definition example_to_datetime (s : string) : option Z :=
  if String.eqb s "1970-01-01 00:00:00" then Some 0%Z
  else if String.eqb s "1970-01-01 00:10:00" then Some 600000000000%Z
  else None.

Definition example_pandas : Pandas :=
  {| to_datetime := example_to_datetime;
     to_numeric := λ s, inject_Z <$> decimal s |}.

(** A chunk size that holds the whole file. *)
Definition whole_file (csv : DataFrame) : positive :=
  Pos.of_succ_nat (length (rows csv)).

(** The successive deltas of a list of instants, in seconds, a negative one
    replaced by zero; and the test for a gap. *)
Definition clipped_deltas (ts : list Z) : list Q :=
  zip_with (λ earlier later,
              let d := ((later - earlier) # 1000000000)%Q in
              if Qlt_le_dec d 0 then 0%Q else d)
           ts (tail ts).

Definition exceeds_threshold (d : Q) : bool :=
  if Qlt_le_dec GAP_THRESHOLD_SEC d then true else false.

(** The order of [sort_values] on instants, as a relation. *)
Definition instant_order (a b : option Z) : Prop := instant_le a b.

(** The header after [resolve_columns]. *)
Definition resolved_columns (cols : list string) : list string :=
  rename (rename_map cols) cols.

(** No canonical field is spelled in two ways in the header. *)
Definition single_spelling (cols : list string) : bool :=
  forallb (λ entry : string * list string,
             length (remove_dups
                       (List.filter (λ col, bool_decide (col ∈ entry.2)) cols)) <=? 1)
          COLUMN_ALIASES.

(** The two samples of the scenario, ten minutes apart. *)
Definition scenario (t0 v0 t1 v1 : string) : DataFrame :=
  {| columns := ["trip_id"; "timestamp"; "speed_kmph"];
     rows := [ [Some "A"; Some t0; Some v0]; [Some "A"; Some t1; Some v1] ] |}.

Definition scenario_csv : DataFrame :=
  scenario "1970-01-01 00:00:00" "50" "1970-01-01 00:10:00" "60".

Definition final_metrics_of (o : option outputs) : list TripMetrics.t :=
  match o with
  | Some (TimeSeries _ _ final_metrics_df) => final_metrics_df
  | _ => []
  end.

(** The trip_id column of a frame, row by row. *)
Definition trip_ids (df : DataFrame) : list cell :=
  map (series "trip_id" (columns df)) (rows df).

Definition notna {A} (v : option A) : bool := negb (isna v).

(** A trip-level file with two rows for one trip. *)
Definition repeated_trip_csv : DataFrame :=
  {| columns := ["trip_id"; "duration_minutes"; "distance_km"];
     rows := [ [Some "A"; Some "10"; Some "8"]; [Some "A"; Some "20"; Some "16"] ] |}.

(** A trip-level file with one row per trip and a row without trip_id. *)
Definition two_trips_csv : DataFrame :=
  {| columns := ["Trip_ID"; "duration_minutes"; "distance_km"];
     rows := [ [Some "A"; Some "10"; Some "8"]; [None; Some "5"; Some "1"];
               [Some "B"; Some "20"; Some "16"] ] |}.

(** A time-series file whose only row has no trip_id. *)
Definition all_rejected_csv : DataFrame :=
  {| columns := ["trip_id"; "timestamp"; "speed_kmph"];
     rows := [ [None; Some "1970-01-01 00:00:00"; Some "50"] ] |}.

(** The columns the dashboard reads. *)
Definition REPORTING_COLUMNS : list string :=
  [ "trip_id"; "duration_minutes"; "avg_speed"; "distance_km"; "max_speed" ].

(** The columns the salvage loop leaves alone. *)
Definition same_identity (r r' : reading) : Prop :=
  trip_id r' = trip_id r ∧ timestamp r' = timestamp r
  ∧ other_columns r' = other_columns r
  ∧ rejection_reasons r' = rejection_reasons r
  ∧ validation_status r' = validation_status r.

(** A list of characters that does not start with a space. *)
Definition clean_head (l : list ascii) : bool :=
  match l with
  | [] => true
  | a :: _ => negb (is_space a)
  end.

(** The header the loop body works with. *)
Definition resolved_header (cols : list string) : list string :=
  columns (resolve_columns (normalize_columns {| columns := cols; rows := [] |})).

(** The validated and the rejected rows among [rs], under the header [cols]. *)
Definition checked_rows `{Pandas} (cols : list string) (rs : list (list cell))
    : list reading * list reading :=
  let checked := map (validate_row cols) rs in
  (List.filter (λ r, negb (rejected_mask r)) checked,
   List.filter rejected_mask checked).

(** The outputs of the time-series path as a function of the header and of
    all the rows. *)
Definition time_series_of `{Pandas} (cols : list string) (rs : list (list cell))
    : option outputs :=
  if unique_labels SELECTED_COLUMNS cols then
    Some (TimeSeries (checked_rows cols rs).1 (checked_rows cols rs).2
            (metrics (checked_rows cols rs).1))
  else None.

(** A chunk with a valid row, a row without trip_id and a row whose battery
    voltage is out of range. *)
Definition mixed_chunk : DataFrame :=
  {| columns := [" Trip_ID"; "Time"; "speed"; "voltage"];
     rows := [ [Some "A"; Some "1970-01-01 00:00:00"; Some "50"; Some "400"];
               [None; Some "1970-01-01 00:10:00"; Some "60"; Some "400"];
               [Some "A"; Some "1970-01-01 00:10:00"; Some "60"; Some "5000"] ] |}.


(** ** Further notions *)

(** The canonical field names, the keys of [COLUMN_ALIASES]. *)
Definition canonical_fields : list string := COLUMN_ALIASES.*1.

(** Every spelling the alias table knows. *)
Definition known_aliases : list string := concat COLUMN_ALIASES.*2.

(** The notes of the salvage loop for the sensors that satisfy [null]. *)
Definition notes_of (null : sensor → bool) : string :=
  foldr (λ (entry : sensor * (Q * Q)) rest,
           (if null entry.1 then out_of_range_tag entry.1 else "") +:+ rest)
        "" VALID_RANGES.

(** [res] is the greatest value of [vals] for the order [le], and null when
    [vals] has no value. *)
Definition extremum_of (le : Q → Q → Prop) (vals : list (option Q))
    (res : option Q) : Prop :=
  match res with
  | Some v => Some v ∈ vals ∧ ∀ x, Some x ∈ vals → le x v
  | None => ∀ x, x ∈ vals → x = None
  end.

(** One turn of a [skipna] extremum: [pick] chooses between two values. *)
Definition skipna_step (pick : Q → Q → Q) (acc v : option Q) : option Q :=
  match acc, v with
  | Some a, Some b => Some (pick a b)
  | None, _ => v
  | _, None => acc
  end.

(** A string without a minus sign. *)
Fixpoint no_dash (s : string) : bool :=
  match s with
  | EmptyString => true
  | String a s' => negb (Ascii.eqb a "-") && no_dash s'
  end.

(** A trip-level file without a trip identifier. *)
Definition no_trip_id_csv : DataFrame :=
  {| columns := ["Trip"; "duration_minutes"; "distance_km"];
     rows := [ [Some "A"; Some "10"; Some "8"] ] |}.

(** A time-series file with two trips: one row of trip B, two rows of trip A
    in descending time, the later one with a battery voltage out of range,
    and a row without trip_id. *)
Definition fleet_csv : DataFrame :=
  {| columns := ["Trip_ID"; "Timestamp"; " Speed"; "Voltage"];
     rows := [ [Some "B"; Some "1970-01-01 00:00:00"; Some "50"; Some "400"];
               [Some "A"; Some "1970-01-01 00:10:00"; Some "60"; Some "5000"];
               [None; Some "1970-01-01 00:00:00"; Some "50"; Some "400"];
               [Some "A"; Some "1970-01-01 00:00:00"; Some "50"; Some "400"] ] |}.

(** Its cleaned rows. *)
Definition fleet_cleaned : list reading :=
  (checked_rows (H := example_pandas)
     (resolved_header (columns fleet_csv)) (rows fleet_csv)).1.


(** [pd.to_datetime] on a column, for the examples: the format is guessed from
    the first value that is not null and every value is parsed with it, one in
    another format becoming NaT; where no format can be guessed each value is
    parsed by itself.  Two formats, on the timestamps of the examples. *)
Inductive datetime_format := YearFirst | MonthFirst.

Definition guess_datetime_format (s : string) : option datetime_format :=
  if bool_decide (is_Some (example_to_datetime s)) then Some YearFirst
  else if String.eqb s "01/01/1970 00:10:00" then Some MonthFirst
  else None.

Definition parse_datetime (format : datetime_format) (s : string) : option Z :=
  match format with
  | YearFirst => example_to_datetime s
  | MonthFirst =>
      if String.eqb s "01/01/1970 00:10:00" then Some 600000000000%Z else None
  end.

Definition first_valid (col : list cell) : option string := head (omap id col).

Definition guessing_to_datetime (col : list cell) : list (option Z) :=
  match first_valid col ≫= guess_datetime_format with
  | Some format => map (λ c, c ≫= parse_datetime format) col
  | None =>
      map (λ c, c ≫= λ s, guess_datetime_format s ≫= λ format,
                 parse_datetime format s) col
  end.

Definition guessing_pandas : PandasSeries :=
  {| read_series := λ col, col;
     to_datetime_series := guessing_to_datetime;
     to_numeric_series := map (λ c, c ≫= λ s, inject_Z <$> decimal s) |}.

(** Two samples of one trip, ten minutes apart, their timestamps written in
    two formats. *)
Definition two_formats_csv : DataFrame :=
  {| columns := ["trip_id"; "timestamp"; "speed_kmph"];
     rows := [ [Some "A"; Some "1970-01-01 00:00:00"; Some "50"];
               [Some "A"; Some "01/01/1970 00:10:00"; Some "60"] ] |}.


(** * Properties *)

(** ** Strings *)

Lemma append_cons (x : ascii) (a b : string) :
  String x a +:+ b = String x (a +:+ b).
Proof. reflexivity. Qed.

Lemma append_assoc (a b c : string) : (a +:+ b) +:+ c = a +:+ b +:+ c.
Proof.
  induction a as [|x a IH]; [done|].
  by rewrite !append_cons, IH.
Qed.

Lemma append_empty_r (a : string) : a +:+ "" = a.
Proof. induction a as [|x a IH]; [done|]. by rewrite append_cons, IH. Qed.

Lemma occurs_in_append_l tag s t : occurs_in tag s → occurs_in tag (s +:+ t).
Proof.
  intros (p & q & ->). exists p, (q +:+ t).
  by rewrite !append_assoc.
Qed.

Lemma occurs_in_append_r tag s : occurs_in tag (s +:+ tag).
Proof. exists s, "". by rewrite append_empty_r. Qed.

Lemma append_nonempty_r (a b : string) : b ≠ "" → a +:+ b ≠ "".
Proof. destruct a, b; rewrite ?append_cons; unfold String.append; congruence. Qed.

(** ** The validation steps, field by field *)

Lemma between_false_iff lo hi v :
  between lo hi (Some v) = false ↔ (v < lo ∨ hi < v)%Q.
Proof.
  unfold between. rewrite andb_false_iff.
  split; intros [Hlo | Hhi].
  - left. apply Qnot_le_lt. intros Hle. apply Qle_bool_iff in Hle. congruence.
  - right. apply Qnot_le_lt. intros Hle. apply Qle_bool_iff in Hle. congruence.
  - left. apply not_true_is_false. intros Hle%Qle_bool_iff.
    by apply (Qlt_not_le _ _ Hlo).
  - right. apply not_true_is_false. intros Hle%Qle_bool_iff.
    by apply (Qlt_not_le _ _ Hhi).
Qed.

Lemma get_set_sensor s s' v r :
  get_sensor s' (set_sensor s v r) = if decide (s = s') then v else get_sensor s' r.
Proof. by destruct s, s'. Qed.

Lemma salvage_step_sensor r s lo hi s' :
  get_sensor s' (salvage_step r (s, (lo, hi))) =
    if decide (s = s')
    then (if between lo hi (get_sensor s r) then get_sensor s r else None)
    else get_sensor s' r.
Proof.
  unfold salvage_step. destruct (between lo hi (get_sensor s r)) eqn:Hb; simpl.
  - by case_decide; subst.
  - change (get_sensor s' (add_salvage_note ?t ?x)) with (get_sensor s' x).
    apply get_set_sensor.
Qed.

Lemma salvage_step_identity r entry : same_identity r (salvage_step r entry).
Proof.
  destruct entry as [s [lo hi]]. unfold salvage_step, same_identity.
  by destruct (between lo hi (get_sensor s r)).
Qed.

Lemma foldl_salvage_identity l r : same_identity r (foldl salvage_step r l).
Proof.
  revert r. induction l as [|entry l IH]; intros r; simpl.
  - by unfold same_identity.
  - destruct (IH (salvage_step r entry)) as (? & ? & ? & ? & ?).
    destruct (salvage_step_identity r entry) as (? & ? & ? & ? & ?).
    unfold same_identity. by repeat split; etrans.
Qed.

Lemma sensor_validation_identity r : same_identity r (sensor_validation r).
Proof. apply foldl_salvage_identity. Qed.

Lemma foldl_salvage_sensor_other l r s :
  s ∉ l.*1 → get_sensor s (foldl salvage_step r l) = get_sensor s r.
Proof.
  revert r. induction l as [|[s0 [lo hi]] l IH]; intros r Hs; cbn [foldl]; [done|].
  rewrite fmap_cons, not_elem_of_cons in Hs. destruct Hs as [Hne Hs].
  rewrite IH by done. rewrite salvage_step_sensor.
  by case_decide; subst.
Qed.

Lemma foldl_salvage_sensor l r s lo hi :
  NoDup l.*1 → (s, (lo, hi)) ∈ l →
  get_sensor s (foldl salvage_step r l) =
    if between lo hi (get_sensor s r) then get_sensor s r else None.
Proof.
  revert r. induction l as [|[s0 [lo0 hi0]] l IH]; intros r Hnd Hin.
  - by apply elem_of_nil in Hin.
  - rewrite fmap_cons in Hnd. apply NoDup_cons in Hnd as [Hfresh Hnd].
    apply elem_of_cons in Hin as [Heq | Hin]; cbn [foldl].
    + simplify_eq. rewrite foldl_salvage_sensor_other by done.
      rewrite salvage_step_sensor. by case_decide.
    + assert (s ≠ s0) as Hne.
      { intros ->. apply Hfresh. apply list_elem_of_fmap. by exists (s0, (lo, hi)). }
      rewrite IH by done. rewrite salvage_step_sensor.
      by case_decide; subst.
Qed.

Lemma salvage_step_notes r s lo hi :
  salvage_notes (salvage_step r (s, (lo, hi))) =
    if between lo hi (get_sensor s r) then salvage_notes r
    else salvage_notes r +:+ out_of_range_tag s.
Proof. unfold salvage_step. by destruct (between lo hi (get_sensor s r)). Qed.

Lemma foldl_salvage_notes_mono l r tag :
  occurs_in tag (salvage_notes r) →
  occurs_in tag (salvage_notes (foldl salvage_step r l)).
Proof.
  revert r. induction l as [|[s0 [lo hi]] l IH]; intros r Hocc; cbn [foldl]; [done|].
  apply IH. rewrite salvage_step_notes.
  destruct (between lo hi (get_sensor s0 r)); [done|].
  by apply occurs_in_append_l.
Qed.

Lemma foldl_salvage_notes l r s lo hi :
  NoDup l.*1 → (s, (lo, hi)) ∈ l →
  between lo hi (get_sensor s r) = false →
  occurs_in (out_of_range_tag s) (salvage_notes (foldl salvage_step r l)).
Proof.
  revert r. induction l as [|[s0 [lo0 hi0]] l IH]; intros r Hnd Hin Hb.
  - by apply elem_of_nil in Hin.
  - rewrite fmap_cons in Hnd. apply NoDup_cons in Hnd as [Hfresh Hnd].
    apply elem_of_cons in Hin as [Heq | Hin]; cbn [foldl].
    + simplify_eq. apply foldl_salvage_notes_mono.
      rewrite salvage_step_notes, Hb. apply occurs_in_append_r.
    + assert (s ≠ s0) as Hne.
      { intros ->. apply Hfresh. apply list_elem_of_fmap. by exists (s0, (lo, hi)). }
      apply IH; [done..|].
      rewrite salvage_step_sensor. by case_decide; subst.
Qed.

Lemma VALID_RANGES_NoDup : NoDup VALID_RANGES.*1.
Proof. apply (bool_decide_unpack _). by vm_compute. Qed.

Lemma VALID_RANGES_total s : ∃ lo hi, (s, (lo, hi)) ∈ VALID_RANGES.
Proof.
  destruct s; eexists _, _; unfold VALID_RANGES;
    repeat first [ by apply list_elem_of_here | apply list_elem_of_further ].
Qed.

Lemma all_nan_iff r : all_nan r = true ↔ ∀ s, get_sensor s r = None.
Proof.
  unfold all_nan, VALID_RANGES, isna. simpl. split.
  - intros Hall s.
    destruct (speed_kmph r) eqn:?, (battery_voltage r) eqn:?,
      (battery_current r) eqn:?, (soc_percent r) eqn:?,
      (motor_temp_c r) eqn:?, (cell_temp_c r) eqn:?; try discriminate.
    by destruct s.
  - intros Hall.
    pose proof (Hall SpeedKmph) as H1. pose proof (Hall BatteryVoltage) as H2.
    pose proof (Hall BatteryCurrent) as H3. pose proof (Hall SocPercent) as H4.
    pose proof (Hall MotorTempC) as H5. pose proof (Hall CellTempC) as H6.
    simpl in *. by rewrite H1, H2, H3, H4, H5, H6.
Qed.


Section validation_facts.
Context `{Pandas}.

Lemma load_row_sensor s cols row :
  get_sensor s (load_row cols row) = coerce_float (series (sensor_name s) cols row).
Proof. by destruct s. Qed.

Lemma null_after_coercion_iff s cols row :
  null_after_coercion s cols row ↔
  coerce_float (series (sensor_name s) cols row) = None.
Proof.
  unfold null_after_coercion, coerce_float, series. split.
  - intros [Habs | [Hnan | (text & Htext & Hnum)]].
    + by rewrite Habs.
    + unfold series in Hnan. by rewrite Hnan.
    + unfold series in Htext. by rewrite Htext.
  - destruct (column_index (sensor_name s) cols) as [i|]; [|by left].
    destruct (default None (row !! i)) as [text|] eqn:Hcell; [|by right; left].
    simpl. intros Hnum. right; right. by exists text.
Qed.

(** Each step after the load, column by column. *)
Lemma hard_rejects_fields r :
  trip_id (hard_rejects r) = trip_id r
  ∧ timestamp (hard_rejects r) = timestamp r
  ∧ (∀ s, get_sensor s (hard_rejects r) = get_sensor s r)
  ∧ salvage_notes (hard_rejects r) = salvage_notes r
  ∧ validation_status (hard_rejects r) = validation_status r
  ∧ rejection_reasons (hard_rejects r) =
      (rejection_reasons r
         +:+ (if isna (trip_id r) then "|missing_trip_id" else ""))
        +:+ (if isna (timestamp r) then "|invalid_timestamp" else "").
Proof.
  unfold hard_rejects.
  destruct (isna (trip_id r)); cbn [timestamp add_rejection_reason];
    destruct (isna (timestamp r)); cbn -[String.append];
    rewrite ?append_empty_r; repeat split; by intros [].
Qed.

Lemma fully_invalid_fields r :
  trip_id (fully_invalid r) = trip_id r
  ∧ timestamp (fully_invalid r) = timestamp r
  ∧ (∀ s, get_sensor s (fully_invalid r) = get_sensor s r)
  ∧ salvage_notes (fully_invalid r) = salvage_notes r
  ∧ validation_status (fully_invalid r) = validation_status r
  ∧ rejection_reasons (fully_invalid r) =
      rejection_reasons r
        +:+ (if all_nan r then "|all_sensors_invalid" else "").
Proof.
  unfold fully_invalid. destruct (all_nan r); cbn -[String.append];
    rewrite ?append_empty_r; repeat split; by intros [].
Qed.

Lemma final_classification_fields r :
  trip_id (final_classification r) = trip_id r
  ∧ timestamp (final_classification r) = timestamp r
  ∧ (∀ s, get_sensor s (final_classification r) = get_sensor s r)
  ∧ salvage_notes (final_classification r) = salvage_notes r
  ∧ rejection_reasons (final_classification r) = rejection_reasons r
  ∧ validation_status (final_classification r) =
      if rejected_mask r then "rejected" else validation_status r.
Proof.
  unfold final_classification. destruct (rejected_mask r);
    repeat split; by intros [].
Qed.

Lemma all_nan_ext r r' :
  (∀ s, get_sensor s r' = get_sensor s r) → all_nan r' = all_nan r.
Proof.
  intros Hs. unfold all_nan, VALID_RANGES. cbn [forallb fst].
  by rewrite !Hs.
Qed.

Lemma validate_row_sensor_raw cols row s :
  get_sensor s (validate_row cols row) =
  get_sensor s (sensor_validation (hard_rejects (load_row cols row))).
Proof.
  unfold validate_row.
  destruct (final_classification_fields
              (fully_invalid (sensor_validation (hard_rejects (load_row cols row)))))
    as (_ & _ & -> & _).
  by destruct (fully_invalid_fields
              (sensor_validation (hard_rejects (load_row cols row))))
    as (_ & _ & -> & _).
Qed.

Lemma validate_row_notes_raw cols row :
  salvage_notes (validate_row cols row) =
  salvage_notes (sensor_validation (hard_rejects (load_row cols row))).
Proof.
  unfold validate_row.
  destruct (final_classification_fields
              (fully_invalid (sensor_validation (hard_rejects (load_row cols row)))))
    as (_ & _ & _ & -> & _).
  by destruct (fully_invalid_fields
              (sensor_validation (hard_rejects (load_row cols row))))
    as (_ & _ & _ & -> & _).
Qed.

Lemma hard_rejects_load_sensor cols row s :
  get_sensor s (hard_rejects (load_row cols row)) =
  coerce_float (series (sensor_name s) cols row).
Proof.
  destruct (hard_rejects_fields (load_row cols row)) as (_ & _ & -> & _).
  apply load_row_sensor.
Qed.

Lemma validate_row_sensor cols row s lo hi :
  (s, (lo, hi)) ∈ VALID_RANGES →
  get_sensor s (validate_row cols row) =
    if between lo hi (coerce_float (series (sensor_name s) cols row))
    then coerce_float (series (sensor_name s) cols row) else None.
Proof.
  intros Hin. rewrite validate_row_sensor_raw. unfold sensor_validation.
  rewrite (foldl_salvage_sensor _ _ s lo hi VALID_RANGES_NoDup Hin).
  by rewrite hard_rejects_load_sensor.
Qed.

Lemma validate_row_note cols row s lo hi :
  (s, (lo, hi)) ∈ VALID_RANGES →
  between lo hi (coerce_float (series (sensor_name s) cols row)) = false →
  occurs_in (out_of_range_tag s) (salvage_notes (validate_row cols row)).
Proof.
  intros Hin Hb. rewrite validate_row_notes_raw.
  apply (foldl_salvage_notes _ _ s lo hi VALID_RANGES_NoDup Hin).
  by rewrite hard_rejects_load_sensor.
Qed.

Lemma validate_row_trip_id cols row :
  trip_id (validate_row cols row) = series "trip_id" cols row.
Proof.
  unfold validate_row.
  destruct (final_classification_fields
              (fully_invalid (sensor_validation (hard_rejects (load_row cols row)))))
    as (-> & _).
  destruct (fully_invalid_fields
              (sensor_validation (hard_rejects (load_row cols row))))
    as (-> & _).
  destruct (sensor_validation_identity (hard_rejects (load_row cols row)))
    as (-> & _).
  by destruct (hard_rejects_fields (load_row cols row)) as (-> & _).
Qed.

Lemma validate_row_timestamp cols row :
  timestamp (validate_row cols row) = series "timestamp" cols row ≫= to_datetime.
Proof.
  unfold validate_row.
  destruct (final_classification_fields
              (fully_invalid (sensor_validation (hard_rejects (load_row cols row)))))
    as (_ & -> & _).
  destruct (fully_invalid_fields
              (sensor_validation (hard_rejects (load_row cols row))))
    as (_ & -> & _).
  destruct (sensor_validation_identity (hard_rejects (load_row cols row)))
    as (_ & -> & _).
  by destruct (hard_rejects_fields (load_row cols row)) as (_ & -> & _).
Qed.

(** The reasons of a validated row, and its status. *)
Lemma validate_row_reasons cols row :
  rejection_reasons (validate_row cols row) =
    ((if isna (trip_id (validate_row cols row)) then "|missing_trip_id" else "")
     +:+ (if isna (timestamp (validate_row cols row))
          then "|invalid_timestamp" else ""))
    +:+ (if all_nan (validate_row cols row) then "|all_sensors_invalid" else "").
Proof.
  rewrite (all_nan_ext _ _ (validate_row_sensor_raw cols row)).
  rewrite validate_row_trip_id, validate_row_timestamp.
  unfold validate_row.
  destruct (final_classification_fields
              (fully_invalid (sensor_validation (hard_rejects (load_row cols row)))))
    as (_ & _ & _ & _ & -> & _).
  destruct (fully_invalid_fields
              (sensor_validation (hard_rejects (load_row cols row))))
    as (_ & _ & _ & _ & _ & ->).
  destruct (sensor_validation_identity (hard_rejects (load_row cols row)))
    as (_ & _ & _ & -> & _).
  by destruct (hard_rejects_fields (load_row cols row))
    as (_ & _ & _ & _ & _ & ->).
Qed.

Lemma validate_row_status cols row :
  validation_status (validate_row cols row) =
    if rejected_mask (validate_row cols row) then "rejected" else "valid".
Proof.
  unfold rejected_mask at 1. unfold validate_row.
  destruct (final_classification_fields
              (fully_invalid (sensor_validation (hard_rejects (load_row cols row)))))
    as (_ & _ & _ & _ & -> & ->).
  fold (rejected_mask
          (fully_invalid (sensor_validation (hard_rejects (load_row cols row))))).
  destruct (fully_invalid_fields
              (sensor_validation (hard_rejects (load_row cols row))))
    as (_ & _ & _ & _ & -> & _).
  destruct (sensor_validation_identity (hard_rejects (load_row cols row)))
    as (_ & _ & _ & _ & ->).
  by destruct (hard_rejects_fields (load_row cols row))
    as (_ & _ & _ & _ & -> & _).
Qed.
End validation_facts.


(** ** Rejection and salvage of a row *)

Lemma occurs_in_suffix a b s : occurs_in (a +:+ b) s → occurs_in b s.
Proof.
  intros (p & q & ->). exists (p +:+ a), q.
  by rewrite !append_assoc.
Qed.

Lemma foldl_salvage_all_null l r :
  (∀ s, get_sensor s r = None) →
  salvage_notes (foldl salvage_step r l) =
    salvage_notes r +:+ foldr (λ entry rest, out_of_range_tag entry.1 +:+ rest) "" l.
Proof.
  revert r. induction l as [|[s [lo hi]] l IH]; intros r Hnull; cbn [foldl foldr fst].
  - by rewrite append_empty_r.
  - rewrite IH.
    + rewrite salvage_step_notes, Hnull. cbn [between]. apply append_assoc.
    + intros s'. rewrite salvage_step_sensor, !Hnull. by case_decide.
Qed.

Lemma filter_partition_length {A} (f : A → bool) (l : list A) :
  length (List.filter (λ x, negb (f x)) l) + length (List.filter f l) = length l.
Proof.
  induction l as [|x l IH]; [done|]. cbn [List.filter].
  destruct (f x); cbn [negb length]; lia.
Qed.

Lemma filter_partition_perm {A} (f : A → bool) (l : list A) :
  List.filter (λ x, negb (f x)) l ++ List.filter f l ≡ₚ l.
Proof.
  induction l as [|x l IH]; [done|]. cbn [List.filter].
  destruct (f x); cbn [negb].
  - by rewrite <- Permutation_middle, IH.
  - by rewrite <- app_comm_cons, IH.
Qed.

Section row_claims.
Context `{Pandas}.

Lemma rejected_mask_iff cols row :
  rejected_mask (validate_row cols row) = true ↔
  rejection_grounds (validate_row cols row).
Proof.
  unfold rejected_mask, rejection_grounds.
  rewrite validate_row_reasons, <- all_nan_iff.
  destruct (trip_id (validate_row cols row)),
    (timestamp (validate_row cols row)),
    (all_nan (validate_row cols row)); cbn; intuition congruence.
Qed.

(** C2: a row of the time-series path ends up [rejected] exactly when its
    trip_id is null, or its timestamp does not parse, or every sensor is
    null after the salvage; and exactly when its rejection reasons are not
    empty. *)
Theorem rejected_iff_grounds cols row :
  (validation_status (validate_row cols row) = "rejected" ↔
     series "trip_id" cols row = None
     ∨ series "timestamp" cols row ≫= to_datetime = None
     ∨ ∀ s, get_sensor s (validate_row cols row) = None)
  ∧ (validation_status (validate_row cols row) = "rejected" ↔
       rejection_reasons (validate_row cols row) ≠ "").
Proof.
  rewrite <- validate_row_trip_id, <- validate_row_timestamp.
  fold (rejection_grounds (validate_row cols row)).
  rewrite <- rejected_mask_iff, validate_row_status.
  unfold rejected_mask.
  destruct (String.eqb_spec (rejection_reasons (validate_row cols row)) "")
    as [Heq | Hne]; cbn [negb]; split; split; done.
Qed.


(** C10: a sensor that is null after coercion (column absent, cell empty or
    text not numeric) gets the out-of-range note as well; a row without any
    sensor value collects all six notes and is rejected as
    [all_sensors_invalid]. *)
Theorem null_sensor_noted cols row :
  (∀ s, null_after_coercion s cols row →
        get_sensor s (validate_row cols row) = None
        ∧ occurs_in (sensor_name s +:+ "_out_of_range")
            (salvage_notes (validate_row cols row)))
  ∧ ((∀ s, null_after_coercion s cols row) →
       salvage_notes (validate_row cols row) =
         "|speed_kmph_out_of_range|battery_voltage_out_of_range|battery_current_out_of_range|soc_percent_out_of_range|motor_temp_c_out_of_range|cell_temp_c_out_of_range"
       ∧ occurs_in "|all_sensors_invalid" (rejection_reasons (validate_row cols row))
       ∧ validation_status (validate_row cols row) = "rejected").
Proof.
  split.
  - intros s Hnull%null_after_coercion_iff.
    destruct (VALID_RANGES_total s) as (lo & hi & Hin). split.
    + by rewrite (validate_row_sensor _ _ _ _ _ Hin), Hnull.
    + apply (occurs_in_suffix "|"). apply (validate_row_note _ _ _ _ _ Hin).
      by rewrite Hnull.
  - intros Hall.
    assert (∀ s, get_sensor s (hard_rejects (load_row cols row)) = None) as Hnone.
    { intros s. rewrite hard_rejects_load_sensor.
      by apply null_after_coercion_iff. }
    assert (all_nan (validate_row cols row) = true) as Hnan.
    { apply all_nan_iff. intros s.
      destruct (VALID_RANGES_total s) as (lo & hi & Hin).
      rewrite (validate_row_sensor _ _ _ _ _ Hin).
      pose proof (Hall s) as Hs%null_after_coercion_iff. by rewrite Hs. }
    split; [|split].
    + rewrite validate_row_notes_raw. unfold sensor_validation.
      rewrite (foldl_salvage_all_null _ _ Hnone).
      destruct (hard_rejects_fields (load_row cols row)) as (_ & _ & _ & -> & _).
      reflexivity.
    + rewrite validate_row_reasons, Hnan. apply occurs_in_append_r.
    + rewrite validate_row_status.
      assert (rejected_mask (validate_row cols row) = true) as ->; [|done].
      apply rejected_mask_iff. right; right. by apply all_nan_iff.
Qed.

(** C7: the validated and the rejected rows of a chunk are together the
    rows of the chunk, each once. *)
Theorem chunk_partition chunk valid rejected :
  validate_chunk chunk = Some (valid, rejected) →
  length valid + length rejected = length (rows chunk)
  ∧ valid ++ rejected ≡ₚ
      map (validate_row (columns (resolve_columns (normalize_columns chunk))))
          (rows chunk).
Proof.
  unfold validate_chunk. case_match; [|done]. intros [= <- <-].
  split.
  - by rewrite filter_partition_length, length_map.
  - apply filter_partition_perm.
Qed.

Lemma validate_chunk_total chunk :
  unique_labels SELECTED_COLUMNS
    (columns (resolve_columns (normalize_columns chunk))) = true →
  is_Some (validate_chunk chunk).
Proof. unfold validate_chunk. by intros ->. Qed.
End row_claims.


(** ** Header normalisation is idempotent *)

Lemma lower_ascii_idem a : lower_ascii (lower_ascii a) = lower_ascii a.
Proof. by destruct a as [[] [] [] [] [] [] [] []]. Qed.

Lemma is_space_lower a : is_space (lower_ascii a) = is_space a.
Proof. by destruct a as [[] [] [] [] [] [] [] []]. Qed.

Lemma lstrip_clean l : clean_head (lstrip l) = true.
Proof.
  induction l as [|a l IH]; [done|]. cbn [lstrip].
  destruct (is_space a) eqn:Ha; [done|]. cbn [clean_head]. by rewrite Ha.
Qed.

Lemma lstrip_of_clean l : clean_head l = true → lstrip l = l.
Proof.
  destruct l as [|a l]; [done|]. cbn [clean_head lstrip].
  by destruct (is_space a).
Qed.

Lemma lstrip_suffix l : ∃ spaces, l = spaces ++ lstrip l.
Proof.
  induction l as [|a l [sp IH]]; [by exists []|]. cbn [lstrip].
  destruct (is_space a).
  - exists (a :: sp). by rewrite <- app_comm_cons, <- IH.
  - by exists [].
Qed.

Lemma clean_head_rev_suffix m spaces u :
  clean_head m = true → rev m = spaces ++ u → clean_head (rev u) = true.
Proof.
  intros Hm Hrev.
  assert (m = rev u ++ rev spaces) as ->.
  { by rewrite <- rev_app_distr, <- Hrev, rev_involutive. }
  destruct (rev u) as [|x t]; [done|]. by rewrite <- app_comm_cons in Hm.
Qed.

Lemma strip_ascii_idem l : strip_ascii (strip_ascii l) = strip_ascii l.
Proof.
  unfold strip_ascii.
  destruct (lstrip_suffix (rev (lstrip l))) as [sp Hsp].
  pose proof (clean_head_rev_suffix _ _ _ (lstrip_clean l) Hsp) as Hclean.
  rewrite (lstrip_of_clean _ Hclean), rev_involutive.
  by rewrite (lstrip_of_clean _ (lstrip_clean _)).
Qed.

Lemma lstrip_map_lower l : lstrip (map lower_ascii l) = map lower_ascii (lstrip l).
Proof.
  induction l as [|a l IH]; [done|]. cbn [map lstrip].
  rewrite is_space_lower. by destruct (is_space a).
Qed.

Lemma strip_ascii_map_lower l :
  strip_ascii (map lower_ascii l) = map lower_ascii (strip_ascii l).
Proof.
  unfold strip_ascii.
  by rewrite lstrip_map_lower, <- map_rev, lstrip_map_lower, <- map_rev.
Qed.

Lemma normalize_header_idem c :
  str_lower (str_strip (str_lower (str_strip c))) = str_lower (str_strip c).
Proof.
  unfold str_lower, str_strip.
  rewrite !list_ascii_of_string_of_list_ascii.
  rewrite strip_ascii_map_lower, strip_ascii_idem. f_equal.
  rewrite map_map. apply map_ext. intros a. apply lower_ascii_idem.
Qed.

Lemma normalize_columns_idem df :
  normalize_columns (normalize_columns df) = normalize_columns df.
Proof.
  unfold normalize_columns. cbn [columns rows]. f_equal.
  rewrite map_map. apply map_ext. intros c. apply normalize_header_idem.
Qed.

(** ** Reading in chunks *)

Lemma chunk_rows_concat {A} (fuel n : nat) (l : list A) :
  0 < n → length l ≤ fuel → concat (chunk_rows fuel n l) = l.
Proof.
  intros Hn. revert l. induction fuel as [|fuel IH]; intros l Hlen.
  - destruct l; [done | cbn [length] in Hlen; lia].
  - destruct l as [|x l]; [done|]. cbn [chunk_rows concat].
    rewrite IH.
    + apply take_drop.
    + rewrite length_drop. cbn [length] in *. lia.
Qed.

Lemma chunk_rows_whole {A} (l : list A) :
  l ≠ [] → chunk_rows (length l) (S (length l)) l = [l].
Proof.
  destruct l as [|x l]; [done|]. intros _. cbn [length chunk_rows].
  rewrite take_ge, drop_ge by (cbn [length]; lia).
  by destruct (length l).
Qed.

Lemma read_csv_whole csv : read_csv (whole_file csv) csv = (csv, []).
Proof.
  unfold read_csv, whole_file. rewrite SuccNat2Pos.id_succ.
  destruct csv as [cols rs]. cbn [rows columns].
  destruct rs as [|r rs]; [done|].
  by rewrite chunk_rows_whole.
Qed.

(** What [read_csv] hands out: frames with the header of the file, whose rows
    are the rows of the file in order. *)
Lemma read_csv_chunks chunksize csv first_chunk reader :
  read_csv chunksize csv = (first_chunk, reader) →
  Forall (λ chunk, columns chunk = columns csv) (first_chunk :: reader)
  ∧ concat (map rows (first_chunk :: reader)) = rows csv.
Proof.
  unfold read_csv.
  pose proof (chunk_rows_concat (length (rows csv)) (Pos.to_nat chunksize)
                (rows csv) (Pos2Nat.is_pos _) (le_n _)) as Hcat.
  destruct (chunk_rows (length (rows csv)) (Pos.to_nat chunksize) (rows csv))
    as [|rs rss] eqn:Hchunks; cbn [map].
  - intros [= <- <-]. cbn in *. split; [by repeat constructor | done].
  - intros [= <- <-]. split.
    + constructor; [done|]. apply Forall_forall. intros chunk Hin.
      apply list_elem_of_fmap in Hin as (rs' & -> & _). done.
    + rewrite <- Hcat. cbn [map concat rows]. f_equal.
      rewrite map_map. cbn [rows]. by rewrite map_id.
Qed.


(** ** The chunk size does not show in the outputs *)

Section chunking.
Context `{Pandas}.

Lemma resolved_header_columns chunk :
  columns (resolve_columns (normalize_columns chunk)) =
  resolved_header (columns chunk).
Proof. reflexivity. Qed.

Lemma validate_chunk_header chunk :
  validate_chunk chunk =
    if unique_labels SELECTED_COLUMNS (resolved_header (columns chunk))
    then Some (checked_rows (resolved_header (columns chunk)) (rows chunk))
    else None.
Proof. reflexivity. Qed.

Lemma mapM_validate_chunk cols chunks :
  Forall (λ chunk, resolved_header (columns chunk) = cols) chunks →
  unique_labels SELECTED_COLUMNS cols = true →
  mapM validate_chunk chunks =
    Some (map (λ chunk, checked_rows cols (rows chunk)) chunks).
Proof.
  intros Hcols Huniq. induction Hcols as [|chunk chunks Hc _ IH]; [done|].
  cbn [mapM map]. rewrite validate_chunk_header, Hc, Huniq, IH. done.
Qed.

Lemma mapM_validate_chunk_None cols chunk chunks :
  resolved_header (columns chunk) = cols →
  unique_labels SELECTED_COLUMNS cols = false →
  mapM validate_chunk (chunk :: chunks) = None.
Proof.
  intros Hc Huniq. cbn [mapM]. by rewrite validate_chunk_header, Hc, Huniq.
Qed.

Lemma checked_rows_concat cols (chunks : list DataFrame) :
  concat (map fst (map (λ chunk, checked_rows cols (rows chunk)) chunks)) =
    (checked_rows cols (concat (map rows chunks))).1
  ∧ concat (map snd (map (λ chunk, checked_rows cols (rows chunk)) chunks)) =
    (checked_rows cols (concat (map rows chunks))).2.
Proof.
  induction chunks as [|chunk chunks [IH1 IH2]]; [done|].
  cbn [map concat]. rewrite IH1, IH2.
  unfold checked_rows. cbn [fst snd].
  by rewrite !map_app, !List.filter_app.
Qed.

Lemma time_series_chunks cols chunk chunks :
  Forall (λ chunk, resolved_header (columns chunk) = cols) (chunk :: chunks) →
  time_series (chunk :: chunks) =
  time_series_of cols (concat (map rows (chunk :: chunks))).
Proof.
  intros Hcols. unfold time_series, time_series_of.
  destruct (unique_labels SELECTED_COLUMNS cols) eqn:Huniq.
  - rewrite (mapM_validate_chunk _ _ Hcols Huniq). cbn [mbind option_bind].
    destruct (checked_rows_concat cols (chunk :: chunks)) as [-> ->]. done.
  - inversion Hcols as [|? ? Hc _]; subst.
    by rewrite (mapM_validate_chunk_None _ _ _ eq_refl Huniq).
Qed.

Lemma resolved_header_normalized cols :
  resolved_header (columns (normalize_columns {| columns := cols; rows := [] |})) =
  resolved_header cols.
Proof.
  unfold resolved_header.
  change (normalize_columns {| columns := columns (normalize_columns ?df); rows := [] |})
    with (normalize_columns (normalize_columns df)).
  by rewrite normalize_columns_idem.
Qed.

(** The script from the first chunk on, as a function of the file. *)
Lemma process_chunks_of_file csv first_chunk reader :
  Forall (λ chunk, columns chunk = columns csv) (first_chunk :: reader) →
  concat (map rows (first_chunk :: reader)) = rows csv →
  process_chunks first_chunk reader =
    if is_trip_level_schema (normalize_columns csv) then
      '(trip_metrics_df, df) ← trip_level (normalize_columns csv);
      Some (TripLevel trip_metrics_df df)
    else time_series_of (resolved_header (columns csv)) (rows csv).
Proof.
  intros Hcols Hrows. unfold process_chunks.
  inversion Hcols as [|? ? Hfirst Hreader]; subst.
  assert (is_trip_level_schema (normalize_columns first_chunk) =
          is_trip_level_schema (normalize_columns csv)) as ->.
  { unfold is_trip_level_schema, normalize_columns. cbn [columns].
    by rewrite Hfirst. }
  destruct (is_trip_level_schema (normalize_columns csv)).
  - assert (concat_frames (normalize_columns first_chunk)
              (map normalize_columns reader) = normalize_columns csv) as ->; [|done].
    unfold concat_frames, normalize_columns at 1 4. cbn [columns]. f_equal.
    + by rewrite Hfirst.
    + rewrite <- Hrows. cbn [map rows]. f_equal. f_equal.
      by rewrite map_map.
  - rewrite (time_series_chunks (resolved_header (columns csv))).
    + rewrite <- Hrows. reflexivity.
    + constructor.
      * rewrite <- Hfirst.
        apply (resolved_header_normalized (columns first_chunk)).
      * apply Forall_forall. intros chunk Hin.
        rewrite Forall_forall in Hreader. by rewrite (Hreader _ Hin).
Qed.

(** The run over the file read in chunks is the run of the script on the
    whole file as its first and only chunk. *)
Lemma process_data_single_chunk (chunksize : positive) (csv : DataFrame) :
  process_data chunksize csv = process_chunks csv [].
Proof.
  unfold process_data.
  destruct (read_csv chunksize csv) as [first_chunk reader] eqn:Hread.
  apply read_csv_chunks in Hread as [Hcols Hrows].
  rewrite (process_chunks_of_file csv first_chunk reader Hcols Hrows).
  symmetry. apply process_chunks_of_file.
  - by repeat constructor.
  - cbn [map concat]. apply app_nil_r.
Qed.
End chunking.


(** ** Sorting *)

Section stable_sort.
Context {A : Type} (le : A → A → bool).
Hypothesis le_total : ∀ x y, le x y = false → le y x = true.

Lemma insert_sorted_perm x l : insert_sorted le x l ≡ₚ x :: l.
Proof.
  induction l as [|y l IH]; [done|]. cbn [insert_sorted].
  destruct (le x y); [done|]. by rewrite IH, Permutation_swap.
Qed.

Lemma stable_sort_perm l : stable_sort le l ≡ₚ l.
Proof.
  induction l as [|x l IH]; [done|]. unfold stable_sort in *. cbn [foldr].
  by rewrite insert_sorted_perm, IH.
Qed.

Lemma insert_sorted_HdRel y x l :
  le y x → HdRel (λ a b, le a b) y l → HdRel (λ a b, le a b) y (insert_sorted le x l).
Proof.
  intros Hyx Hhd. destruct l as [|z l]; cbn [insert_sorted].
  - by constructor.
  - destruct (le x z); constructor; [done|]. by inversion Hhd.
Qed.

Lemma insert_sorted_Sorted x l :
  Sorted (λ a b, le a b) l → Sorted (λ a b, le a b) (insert_sorted le x l).
Proof.
  induction 1 as [|y l Hs IH Hhd]; cbn [insert_sorted].
  - by repeat constructor.
  - destruct (le x y) eqn:Hxy.
    + constructor; [by constructor|]. constructor. by rewrite Hxy.
    + constructor; [done|]. apply insert_sorted_HdRel; [|done].
      by rewrite (le_total _ _ Hxy).
Qed.

Lemma stable_sort_Sorted l : Sorted (λ a b, le a b) (stable_sort le l).
Proof.
  induction l as [|x l IH]; [constructor|]. unfold stable_sort in *.
  cbn [foldr]. by apply insert_sorted_Sorted.
Qed.
End stable_sort.

#[local] Instance instant_order_trans : Transitive instant_order.
Proof.
  intros [x|] [y|] [z|]; unfold instant_order; cbn; try done.
  rewrite !Is_true_true, !Z.leb_le. lia.
Qed.

#[local] Instance instant_order_antisymm : AntiSymm (=) instant_order.
Proof.
  intros [x|] [y|]; unfold instant_order; cbn; try done.
  rewrite !Is_true_true, !Z.leb_le. intros. f_equal. lia.
Qed.

Lemma sort_values_timestamp_perm g : sort_values_timestamp g ≡ₚ g.
Proof. apply stable_sort_perm. Qed.

Lemma sort_values_timestamp_Sorted g :
  Sorted instant_order (timestamp <$> sort_values_timestamp g).
Proof.
  apply (Sorted_fmap timestamp
           (λ a b, instant_le (timestamp a) (timestamp b)) instant_order).
  - done.
  - apply (stable_sort_Sorted (λ a b, instant_le (timestamp a) (timestamp b))).
    intros a b. destruct (timestamp a), (timestamp b); cbn; try done.
    rewrite Z.leb_gt, Z.leb_le. lia.
Qed.

(** The instants of a sorted group, given any ascending arrangement of them. *)
Lemma sorted_group_instants g ts :
  Sorted Z.le ts → Some <$> ts ≡ₚ timestamp <$> g →
  timestamp <$> sort_values_timestamp g = Some <$> ts.
Proof.
  intros Hsorted Hperm. apply (Sorted_unique instant_order).
  - apply sort_values_timestamp_Sorted.
  - apply (Sorted_fmap Some Z.le instant_order); [|done].
    intros x y Hxy. unfold instant_order. cbn. by apply Is_true_true, Z.leb_le.
  - by rewrite sort_values_timestamp_perm, Hperm.
Qed.

(** ** Gaps *)

Lemma is_gap_clipped ns :
  is_gap (Some (clip_lower_0 (total_seconds ns))) =
  exceeds_threshold (if Qlt_le_dec (ns # 1000000000) 0 then 0%Q else ns # 1000000000).
Proof.
  unfold is_gap, exceeds_threshold, clip_lower_0, total_seconds.
  assert ((if Qle_bool 0 (ns # 1000000000) then ns # 1000000000 else 0%Q) =
          (if Qlt_le_dec (ns # 1000000000) 0 then 0%Q else ns # 1000000000)) as ->.
  { destruct (Qlt_le_dec (ns # 1000000000) 0) as [Hneg | Hpos].
    - assert (Qle_bool 0 (ns # 1000000000) = false) as ->; [|done].
      apply not_true_is_false. intros Hle%Qle_bool_iff.
      by apply (Qlt_not_le _ _ Hneg).
    - apply Qle_bool_iff in Hpos. by rewrite Hpos. }
  set (d := if Qlt_le_dec (ns # 1000000000) 0 then 0%Q else ns # 1000000000).
  destruct (Qlt_le_dec GAP_THRESHOLD_SEC d) as [Hgap | Hnogap].
  - assert (Qle_bool d GAP_THRESHOLD_SEC = false) as ->; [|done].
    apply not_true_is_false. intros Hle%Qle_bool_iff.
    by apply (Qlt_not_le _ _ Hgap).
  - apply Qle_bool_iff in Hnogap. by rewrite Hnogap.
Qed.

Lemma gap_count_from t ts :
  length (List.filter is_gap
            (map (fmap (λ ns, clip_lower_0 (total_seconds ns)))
               (zip_with (λ prev cur,
                            match prev, cur with
                            | Some a, Some b => Some (b - a)%Z
                            | _, _ => None
                            end) (Some <$> t :: ts) (Some <$> ts)))) =
  length (List.filter exceeds_threshold (clipped_deltas (t :: ts))).
Proof.
  revert t. induction ts as [|u ts IH]; intros t; [done|].
  specialize (IH u). unfold clipped_deltas in *.
  cbn [fmap list_fmap tail zip_with map List.filter option_fmap option_map] in *.
  rewrite is_gap_clipped.
  destruct (exceeds_threshold _); cbn [length]; by rewrite IH.
Qed.

Lemma gap_count_of_instants ts :
  length (List.filter is_gap
            (map (fmap (λ ns, clip_lower_0 (total_seconds ns)))
               (diff (Some <$> ts)))) =
  length (List.filter exceeds_threshold (clipped_deltas ts)).
Proof.
  destruct ts as [|t ts]; [done|].
  unfold diff. cbn [fmap list_fmap map List.filter option_fmap option_map is_gap].
  apply (gap_count_from t ts).
Qed.

(** ** The rows of the metrics frame *)

Lemma elem_of_metrics m cleaned_df :
  m ∈ metrics cleaned_df →
  m = trip_row (TripMetrics.trip_id m)
        (sort_values_timestamp (group (TripMetrics.trip_id m) cleaned_df))
  ∧ TripMetrics.trip_id m ∈ trip_keys cleaned_df.
Proof.
  unfold metrics. destruct cleaned_df as [|r df]; [by intros ?%elem_of_nil|].
  intros (trip & -> & Hin)%list_elem_of_fmap. done.
Qed.

Lemma metrics_trip_ids cleaned_df :
  TripMetrics.trip_id <$> metrics cleaned_df = trip_keys cleaned_df.
Proof.
  destruct cleaned_df as [|r df]; [done|]. unfold metrics.
  rewrite <- list_fmap_compose. apply list_fmap_id.
Qed.

Section time_series_outputs.
Context `{Pandas}.

(** What a run on the time-series path returns. *)
Lemma process_data_time_series chunksize csv cleaned rejected ms :
  process_data chunksize csv = Some (TimeSeries cleaned rejected ms) →
  (cleaned, rejected) = checked_rows (resolved_header (columns csv)) (rows csv)
  ∧ ms = metrics cleaned.
Proof.
  rewrite process_data_single_chunk.
  rewrite (process_chunks_of_file csv csv []).
  - destruct (is_trip_level_schema (normalize_columns csv)).
    + destruct (trip_level (normalize_columns csv)) as [[??]|]; done.
    + unfold time_series_of. case_match; [|done]. intros [= <- <- <-].
      done.
  - by repeat constructor.
  - cbn [map concat]. apply app_nil_r.
Qed.

(** C9: the gap count of a trip is the number of successive deltas above
    the threshold, the deltas taken between the instants of the trip in
    ascending order, in seconds, a negative one counted as zero. *)
Theorem gap_count_counts_gaps chunksize csv cleaned rejected ms m ts :
  process_data chunksize csv = Some (TimeSeries cleaned rejected ms) →
  m ∈ ms →
  Sorted Z.le ts →
  Some <$> ts ≡ₚ timestamp <$> group (TripMetrics.trip_id m) cleaned →
  TripMetrics.gap_count m =
    length (List.filter exceeds_threshold (clipped_deltas ts)).
Proof.
  intros [_ ->]%process_data_time_series [Hm _]%elem_of_metrics Hsorted Hperm.
  rewrite Hm at 1. unfold trip_row. cbn [TripMetrics.gap_count].
  unfold dt_sec.
  change (map timestamp ?g) with (timestamp <$> g).
  rewrite (sorted_group_instants _ ts Hsorted Hperm).
  apply gap_count_of_instants.
Qed.
End time_series_outputs.


(** ** The chunk size and the coercions decided per chunk *)

Lemma process_chunks_by_validate_chunk `{Pandas} first_chunk reader :
  process_chunks_by validate_chunk first_chunk reader =
  process_chunks first_chunk reader.
Proof. reflexivity. Qed.

Lemma mapM_ext_all {A B} (f g : A → option B) (l : list A) :
  (∀ x, f x = g x) → mapM f l = mapM g l.
Proof.
  intros Hfg. induction l as [|x l IH]; [done|].
  cbn [mapM]. by rewrite Hfg, IH.
Qed.

Lemma process_chunks_by_ext validate validate' first_chunk reader :
  (∀ chunk, validate chunk = validate' chunk) →
  process_chunks_by validate first_chunk reader =
  process_chunks_by validate' first_chunk reader.
Proof.
  intros Hext. unfold process_chunks_by, time_series_by.
  by rewrite (mapM_ext_all validate validate' _ Hext).
Qed.

Lemma at_row_column {B} (f : cell → option B) c chunk i row :
  rows chunk !! i = Some row →
  at_row (map f (column_of c chunk)) i = f (series c (columns chunk) row).
Proof.
  intros Hi. unfold at_row, column_of. rewrite map_map.
  change (map ?g (rows chunk)) with (g <$> rows chunk).
  by rewrite list_lookup_fmap, Hi.
Qed.

Section cell_by_cell.
Context `{PandasSeries} (P : Pandas).
Hypothesis read_cells : ∀ col, read_series col = col.
Hypothesis to_datetime_cells :
∀ col, to_datetime_series col = map (λ c, c ≫= to_datetime) col.
Hypothesis to_numeric_cells :
∀ col, to_numeric_series col = map coerce_float col.

Lemma typed_rows_cells rs : typed_rows rs = rs.
Proof.
unfold typed_rows.
rewrite (imap_ext _ (const id)); [by rewrite imap_const, list_fmap_id|].
intros i row Hi. cbn beta. unfold const at 1, id at 1.
rewrite (imap_ext _ (const id)); [by rewrite imap_const, list_fmap_id|].
intros j c Hj. cbn beta. unfold const, id. rewrite read_cells. unfold column_at.
change (map ?f rs) with (f <$> rs). rewrite list_lookup_fmap, Hi.
cbn [fmap option_fmap option_map default]. 
transitivity (default None (Some c)); [f_equal; exact Hj | done].
Qed.

Lemma typed_chunk_cells chunk : typed_chunk chunk = chunk.
Proof. unfold typed_chunk. rewrite typed_rows_cells. by destruct chunk. Qed.

Lemma read_csv_series_cells chunksize csv :
read_csv_series chunksize csv = read_csv chunksize csv.
Proof.
unfold read_csv_series. destruct (read_csv chunksize csv) as [first_chunk reader].
rewrite typed_chunk_cells. f_equal.
induction reader as [|chunk reader IH]; [done|].
cbn [map]. by rewrite typed_chunk_cells, IH.
Qed.

Lemma load_chunk_cells chunk :
load_chunk chunk = map (load_row (columns chunk)) (rows chunk).
Proof.
unfold load_chunk. rewrite to_datetime_cells, !to_numeric_cells.
rewrite (imap_ext _ (const (load_row (columns chunk))));
  [by rewrite imap_const|].
intros i row Hi. cbn beta. unfold const.
by rewrite !(at_row_column _ _ _ _ _ Hi).
Qed.

Lemma validate_chunk_series_cells chunk :
validate_chunk_series chunk = validate_chunk chunk.
Proof.
unfold validate_chunk_series, validate_chunk. cbv zeta.
generalize (resolve_columns (normalize_columns chunk)). intros resolved.
rewrite load_chunk_cells, map_map. unfold check_row, validate_row.
reflexivity.
Qed.

Lemma process_data_series_cells chunksize csv :
process_data_series chunksize csv = process_data chunksize csv.
Proof.
unfold process_data_series, process_data. rewrite read_csv_series_cells.
destruct (read_csv chunksize csv) as [first_chunk reader].
unfold process_chunks_series.
rewrite (process_chunks_by_ext _ validate_chunk _ _ validate_chunk_series_cells).
apply process_chunks_by_validate_chunk.
Qed.

End cell_by_cell.





(** ** Alias resolution and the order of the header *)

Lemma first_alias_column_Some aliases cols c :
  first_alias_column aliases cols = Some c → c ∈ cols ∧ c ∈ aliases.
Proof.
  intros [Hin Hal]%find_some. split.
  - by apply list_elem_of_In.
  - by apply bool_decide_eq_true in Hal.
Qed.

Lemma first_alias_column_None aliases cols c :
  first_alias_column aliases cols = None → c ∈ cols → c ∉ aliases.
Proof.
  intros Hnone Hin%list_elem_of_In.
  pose proof (find_none _ _ Hnone c Hin) as Hc.
  by apply bool_decide_eq_false in Hc.
Qed.

Lemma first_alias_column_found aliases cols c :
  c ∈ cols → c ∈ aliases → is_Some (first_alias_column aliases cols).
Proof.
  intros Hin Hal. destruct (first_alias_column aliases cols) eqn:Hfind; [done|].
  by destruct (first_alias_column_None _ _ c Hfind Hin).
Qed.

Lemma rename_map_of_snoc table entry cols :
  rename_map_of (table ++ [entry]) cols =
  rename_map_step cols (rename_map_of table cols) entry.
Proof. unfold rename_map_of. by rewrite foldl_app. Qed.

(** The entries of the rename map, for a table whose alias lists are
    disjoint: a column is renamed to the field whose first match it is. *)
Lemma rename_map_of_lookup table cols c k :
  NoDup (concat table.*2) →
  rename_map_of table cols !! c = Some k ↔
  ∃ aliases, (k, aliases) ∈ table ∧ first_alias_column aliases cols = Some c.
Proof.
  revert c k. induction table as [|[k0 al0] table IH] using rev_ind; intros c k Hnd.
  - unfold rename_map_of. cbn [foldl]. rewrite lookup_empty. split; [done|].
    by intros (? & ?%elem_of_nil & _).
  - rewrite fmap_app, concat_app in Hnd. cbn [fmap list_fmap concat snd] in Hnd.
    rewrite app_nil_r in Hnd. apply NoDup_app in Hnd as (Hnd & Hdisj & _).
    rewrite rename_map_of_snoc. unfold rename_map_step. cbn [fst snd].
    assert (∀ k' al' c', (k', al') ∈ table →
              first_alias_column al' cols = Some c' → c' ∉ al0) as Hother.
    { intros k' al' c' Hin [_ Hc']%first_alias_column_Some. apply Hdisj.
      apply list_elem_of_In, in_concat. exists al'.
      split; apply list_elem_of_In; [|done].
      apply list_elem_of_fmap. by exists (k', al'). }
    destruct (first_alias_column al0 cols) as [c0|] eqn:Hfirst.
    + destruct (decide (c = c0)) as [->|Hne].
      * rewrite lookup_insert_eq. split.
        -- intros [= <-]. exists al0. split; [|done].
           apply elem_of_app. right. by apply list_elem_of_here.
        -- intros (al & [Hin | Hin]%elem_of_app & Hal).
           ++ apply first_alias_column_Some in Hfirst as [_ Hc0].
              by destruct (Hother _ _ _ Hin Hal).
           ++ apply list_elem_of_singleton in Hin. by simplify_eq.
      * rewrite lookup_insert_ne by done. rewrite (IH _ _ Hnd). split.
        -- intros (al & Hin & Hal). exists al. split; [|done].
           apply elem_of_app. by left.
        -- intros (al & [Hin | Hin]%elem_of_app & Hal); [by exists al|].
           apply list_elem_of_singleton in Hin. simplify_eq.
    + rewrite (IH _ _ Hnd). split.
      * intros (al & Hin & Hal). exists al. split; [|done].
        apply elem_of_app. by left.
      * intros (al & [Hin | Hin]%elem_of_app & Hal); [by exists al|].
        apply list_elem_of_singleton in Hin. simplify_eq.
Qed.

Lemma COLUMN_ALIASES_disjoint : NoDup (concat COLUMN_ALIASES.*2).
Proof. apply (bool_decide_unpack _). by vm_compute. Qed.

Lemma rename_map_lookup cols c k :
  rename_map cols !! c = Some k ↔
  ∃ aliases, (k, aliases) ∈ COLUMN_ALIASES
             ∧ first_alias_column aliases cols = Some c.
Proof. apply rename_map_of_lookup, COLUMN_ALIASES_disjoint. Qed.

(** Every canonical field is the first of its own aliases. *)
Lemma canonical_own_alias k aliases :
  (k, aliases) ∈ COLUMN_ALIASES → k ∈ aliases.
Proof.
  unfold COLUMN_ALIASES. rewrite !elem_of_cons, elem_of_nil.
  intros H; repeat destruct H as [H|H]; try done; simplify_eq;
    apply list_elem_of_here.
Qed.

Lemma canonical_aliases_unique k al1 al2 :
  (k, al1) ∈ COLUMN_ALIASES → (k, al2) ∈ COLUMN_ALIASES → al1 = al2.
Proof.
  unfold COLUMN_ALIASES. rewrite !elem_of_cons, !elem_of_nil.
  intros H1 H2; repeat destruct H1 as [H1|H1]; try done; simplify_eq;
    repeat destruct H2 as [H2|H2]; try done; by simplify_eq.
Qed.

(** A canonical field is in the resolved header exactly when some column of
    the header is one of its aliases. *)
Lemma canonical_resolved_iff cols k aliases :
  (k, aliases) ∈ COLUMN_ALIASES →
  k ∈ resolved_columns cols ↔ ∃ c, c ∈ cols ∧ c ∈ aliases.
Proof.
  intros Hk. unfold resolved_columns, rename. split.
  - intros (c & Hc & Hin)%list_elem_of_fmap. exists c. split; [done|].
    destruct (rename_map cols !! c) as [k'|] eqn:Hlook; simpl in Hc.
    + subst k'. apply rename_map_lookup in Hlook as (al & Hal & Hfirst).
      rewrite (canonical_aliases_unique _ _ _ Hk Hal).
      by apply first_alias_column_Some in Hfirst as [_ ?].
    + subst c. by apply canonical_own_alias.
  - intros (c & Hin & Hal).
    destruct (first_alias_column_found _ _ _ Hin Hal) as [c0 Hfirst].
    apply list_elem_of_fmap. exists c0. split.
    + assert (rename_map cols !! c0 = Some k) as ->; [|done].
      apply rename_map_lookup. by exists aliases.
    + by apply first_alias_column_Some in Hfirst as [? _].
Qed.


Lemma at_most_one `{EqDecision A} (l : list A) x y :
  length (remove_dups l) ≤ 1 → x ∈ l → y ∈ l → x = y.
Proof.
  intros Hlen Hx%elem_of_remove_dups Hy%elem_of_remove_dups.
  destruct (remove_dups l) as [|z [|z' l']]; cbn [length] in Hlen; [| |lia].
  - by apply elem_of_nil in Hx.
  - apply list_elem_of_singleton in Hx, Hy. congruence.
Qed.

Lemma single_spelling_first cols cols' entry :
  cols ≡ₚ cols' → single_spelling cols = true → entry ∈ COLUMN_ALIASES →
  first_alias_column entry.2 cols = first_alias_column entry.2 cols'.
Proof.
  intros Hperm Hsingle Hentry. unfold single_spelling in Hsingle.
  rewrite forallb_forall in Hsingle.
  pose proof (Hsingle entry (proj1 (list_elem_of_In _ _) Hentry)) as Hone.
  apply Nat.leb_le in Hone.
  assert (∀ c, c ∈ cols → c ∈ entry.2 →
            c ∈ List.filter (λ col, bool_decide (col ∈ entry.2)) cols) as Hmatch.
  { intros c Hc Hal. apply list_elem_of_In, filter_In. split.
    - by apply list_elem_of_In.
    - by apply bool_decide_eq_true. }
  destruct (first_alias_column entry.2 cols) as [c|] eqn:Hfirst.
  - apply first_alias_column_Some in Hfirst as [Hc Hal].
    destruct (first_alias_column_found entry.2 cols' c) as [c' Hfirst'];
      [by rewrite <- Hperm | done |].
    rewrite Hfirst'. f_equal.
    apply first_alias_column_Some in Hfirst' as [Hc' Hal'].
    rewrite <- Hperm in Hc'.
    apply (at_most_one _ _ _ Hone); by apply Hmatch.
  - destruct (first_alias_column entry.2 cols') as [c'|] eqn:Hfirst'; [|done].
    apply first_alias_column_Some in Hfirst' as [Hc' Hal'].
    rewrite <- Hperm in Hc'.
    by destruct (first_alias_column_None _ _ c' Hfirst Hc').
Qed.

Lemma foldl_rename_map_step_ext cols cols' table m :
  (∀ entry, entry ∈ table →
     first_alias_column entry.2 cols = first_alias_column entry.2 cols') →
  foldl (rename_map_step cols) m table = foldl (rename_map_step cols') m table.
Proof.
  revert m. induction table as [|entry table IH]; intros m Hext; [done|].
  cbn [foldl]. rewrite IH.
  - f_equal. unfold rename_map_step. rewrite Hext; [done|]. apply list_elem_of_here.
  - intros e He. apply Hext. by apply list_elem_of_further.
Qed.

(** C3, as the script has it: the mapping is the first matching column in
    header order, so it can change when the header is reordered; the canonical
    fields present after resolution do not change, and where no field is
    spelled in two ways the mapping does not change either. *)
Theorem alias_resolution_reordered cols cols' :
  cols ≡ₚ cols' →
  (∀ k, k ∈ COLUMN_ALIASES.*1 →
        k ∈ resolved_columns cols ↔ k ∈ resolved_columns cols')
  ∧ (single_spelling cols = true →
       rename_map cols = rename_map cols'
       ∧ resolved_columns cols ≡ₚ resolved_columns cols').
Proof.
  intros Hperm. split.
  - intros k ([k' aliases] & -> & Hin)%list_elem_of_fmap. cbn [fst].
    rewrite !(canonical_resolved_iff _ _ _ Hin).
    by setoid_rewrite Hperm.
  - intros Hsingle.
    assert (rename_map cols = rename_map cols') as Hmap.
    { apply foldl_rename_map_step_ext. intros entry Hentry.
      by apply single_spelling_first. }
    split; [done|]. unfold resolved_columns, rename. rewrite <- Hmap.
    by apply Permutation_map.
Qed.

Lemma alias_resolution_reordered_witness :
  ["speed"; "trip_id"; "soc"] ≡ₚ ["soc"; "speed"; "trip_id"]
  ∧ single_spelling ["speed"; "trip_id"; "soc"] = true
  ∧ ("soc_percent" ∈ resolved_columns ["speed"; "trip_id"; "soc"] ↔
     "soc_percent" ∈ resolved_columns ["soc"; "speed"; "trip_id"])
  ∧ rename_map ["speed"; "trip_id"; "soc"] = rename_map ["soc"; "speed"; "trip_id"].
Proof.
  assert (["speed"; "trip_id"; "soc"] ≡ₚ ["soc"; "speed"; "trip_id"]) as Hperm.
  { symmetry. apply (Permutation_cons_append ["speed"; "trip_id"] "soc"). }
  split; [exact Hperm|]. split; [reflexivity|].
  destruct (alias_resolution_reordered _ _ Hperm) as [Hfields Hmap]. split.
  - apply Hfields. apply (bool_decide_unpack _). reflexivity.
  - apply Hmap. reflexivity.
Defined.

(** C3 as stated fails: two columns that are aliases of one field, in the two
    orders, resolve to different mappings and different headers. *)
Lemma alias_resolution_depends_on_order :
  ["speed"; "vehicle_speed"] ≡ₚ ["vehicle_speed"; "speed"]
  ∧ rename_map ["speed"; "vehicle_speed"] ≠ rename_map ["vehicle_speed"; "speed"]
  ∧ ¬ (resolved_columns ["speed"; "vehicle_speed"]
       ≡ₚ resolved_columns ["vehicle_speed"; "speed"]).
Proof.
  split; [apply Permutation_swap|]. split.
  - intros Heq.
    assert (rename_map ["speed"; "vehicle_speed"] !! "speed" =
            rename_map ["vehicle_speed"; "speed"] !! "speed") as Hlook
      by by rewrite Heq.
    vm_compute in Hlook. discriminate.
  - intros Hperm.
    assert ("vehicle_speed" ∈ resolved_columns ["vehicle_speed"; "speed"]) as Hin.
    { rewrite <- Hperm. apply (bool_decide_unpack _). by vm_compute. }
    revert Hin. apply (bool_decide_unpack _). by vm_compute.
Qed.


(** ** The trip-level path *)

Lemma map_filter_comm {A B} (f : A → B) (p : B → bool) (l : list A) :
  map f (List.filter (λ x, p (f x)) l) = List.filter p (map f l).
Proof.
  induction l as [|x l IH]; [done|]. cbn [List.filter map].
  destruct (p (f x)); cbn [map]; by rewrite IH.
Qed.

Section trip_level_outputs.
Context `{Pandas}.

(** What a run on the trip-level path returns. *)
Lemma process_data_trip_level chunksize csv trip_metrics_df cleaned :
  process_data chunksize csv = Some (TripLevel trip_metrics_df cleaned) →
  trip_level (normalize_columns csv) = Some (trip_metrics_df, cleaned).
Proof.
  rewrite process_data_single_chunk.
  rewrite (process_chunks_of_file csv csv []).
  - destruct (is_trip_level_schema (normalize_columns csv)).
    + destruct (trip_level (normalize_columns csv)) as [[??]|]; [|done].
      by intros [= <- <-].
    + unfold time_series_of. by case_match.
  - by repeat constructor.
  - cbn [map concat]. apply app_nil_r.
Qed.

(** C4, as the script has it: the trip metrics of the trip-level path have
    one row for each input row whose trip_id is not null, in input order;
    they have one row per trip where the input has. *)
Theorem trip_level_rows chunksize csv trip_metrics_df cleaned :
  process_data chunksize csv = Some (TripLevel trip_metrics_df cleaned) →
  trip_ids trip_metrics_df =
    List.filter notna (trip_ids (resolve_columns (normalize_columns csv)))
  ∧ (NoDup (List.filter notna (trip_ids (resolve_columns (normalize_columns csv)))) →
     NoDup (trip_ids trip_metrics_df)).
Proof.
  intros Hrun%process_data_trip_level.
  assert (trip_ids trip_metrics_df =
          List.filter notna (trip_ids (resolve_columns (normalize_columns csv))))
    as Hids; [|by rewrite Hids].
  unfold trip_level in Hrun.
  destruct (column_index "trip_id" _); [|done].
  destruct (unique_labels TRIP_LEVEL_SOURCES _); [|done].
  injection Hrun as <- _.
  unfold trip_ids. cbn [columns rows]. rewrite map_map.
  change (λ x, series "trip_id" TRIP_LEVEL_COLUMNS
                 (map (λ c, series c ?cols x) TRIP_LEVEL_SOURCES))
    with (series "trip_id" cols).
  apply (map_filter_comm _ notna).
Qed.
End trip_level_outputs.

Lemma trip_level_rows_witness :
  ∃ trip_metrics_df cleaned,
    process_data (H := example_pandas) CHUNK_SIZE two_trips_csv =
      Some (TripLevel trip_metrics_df cleaned)
    ∧ trip_ids trip_metrics_df = [Some "A"; Some "B"]
    ∧ NoDup (trip_ids trip_metrics_df).
Proof.
  eexists _, _. split; [vm_compute; reflexivity|].
  edestruct (trip_level_rows (H := example_pandas) CHUNK_SIZE two_trips_csv)
    as [Hids Hnodup]; [vm_compute; reflexivity|].
  split; [exact Hids|]. apply Hnodup.
  apply (bool_decide_unpack _). by vm_compute.
Defined.

(** C4 as stated fails: a trip that has two rows in the input has two rows in
    the trip metrics. *)
Lemma trip_level_repeats_trip :
  ∃ trip_metrics_df cleaned,
    process_data (H := example_pandas) CHUNK_SIZE repeated_trip_csv =
      Some (TripLevel trip_metrics_df cleaned)
    ∧ length (rows trip_metrics_df) = 2
    ∧ remove_dups (trip_ids (resolve_columns (normalize_columns repeated_trip_csv)))
      = [Some "A"]
    ∧ ¬ NoDup (trip_ids trip_metrics_df).
Proof.
  eexists _, _. split; [vm_compute; reflexivity|]. split; [reflexivity|].
  split; [by vm_compute|].
  apply (bool_decide_unpack _). by vm_compute.
Qed.

(** ** The columns of the trip metrics *)

(** C5 fails where every row is rejected: the metrics frame of the
    time-series path is then built from an empty list and has no column. *)
Theorem no_columns_when_all_rejected :
  ∃ o,
    process_data (H := example_pandas) CHUNK_SIZE all_rejected_csv = Some o
    ∧ trip_metrics_columns o = []
    ∧ ¬ Forall (λ c, c ∈ trip_metrics_columns o) REPORTING_COLUMNS.
Proof.
  eexists. split; [vm_compute; reflexivity|]. split; [reflexivity|].
  intros Hall. apply Forall_inv in Hall. by apply elem_of_nil in Hall.
Qed.

(** ** The scenario of two samples *)

Section scenario.
Context `{Pandas}.

Lemma scenario_row t v ns q :
  to_datetime t = Some ns → to_numeric v = Some q →
  between 0 250 (Some q) = true →
  validate_row ["trip_id"; "timestamp"; "speed_kmph"] [Some "A"; Some t; Some v] =
    {| trip_id := Some "A"; timestamp := Some ns; speed_kmph := Some q;
       battery_voltage := None; battery_current := None; soc_percent := None;
       motor_temp_c := None; cell_temp_c := None; other_columns := [];
       rejection_reasons := "";
       salvage_notes := "|battery_voltage_out_of_range|battery_current_out_of_range|soc_percent_out_of_range|motor_temp_c_out_of_range|cell_temp_c_out_of_range";
       validation_status := "valid" |}.
Proof.
  intros Ht Hv Hq. unfold validate_row, load_row, coerce_float.
  change (series "trip_id" _ _) with (Some "A").
  change (series "timestamp" _ _) with (Some t).
  change (series "speed_kmph" _ _) with (Some v).
  change (series "battery_voltage" _ _) with (@None string).
  change (series "battery_current" _ _) with (@None string).
  change (series "soc_percent" _ _) with (@None string).
  change (series "motor_temp_c" _ _) with (@None string).
  change (series "cell_temp_c" _ _) with (@None string).
  cbn [mbind option_bind]. rewrite Ht, Hv.
  change (List.filter _ (labelled _ _)) with (@nil (string * cell)).
  unfold hard_rejects. cbn [isna trip_id timestamp].
  unfold sensor_validation, VALID_RANGES. cbn [foldl].
  unfold salvage_step at 6. cbn [get_sensor speed_kmph]. rewrite Hq. cbn [negb].
  reflexivity.
Qed.

(** C1, as the script has it: the two samples of trip A, 600 s apart, give
    one gap, ten minutes and 60*600/3600 = 10 km; the delta is weighted by
    the speed of the later sample, the row that carries the delta. *)
Theorem scenario_two_samples chunksize t0 v0 t1 v1 :
  to_datetime t0 = Some 0%Z →
  to_datetime t1 = Some 600000000000%Z →
  to_numeric v0 = Some 50%Q →
  to_numeric v1 = Some 60%Q →
  ∃ cleaned m,
    process_data chunksize (scenario t0 v0 t1 v1) = Some (TimeSeries cleaned [] [m])
    ∧ TripMetrics.trip_id m = "A"
    ∧ TripMetrics.gap_count m = 1
    ∧ (TripMetrics.duration_minutes m == 10)%Q
    ∧ (TripMetrics.distance_km m == 60 * 600 / 3600)%Q.
Proof.
  intros Ht0 Ht1 Hv0 Hv1. rewrite process_data_single_chunk.
  rewrite (process_chunks_of_file (scenario t0 v0 t1 v1) _ []);
    [|by repeat constructor|done].
  assert (is_trip_level_schema (normalize_columns (scenario t0 v0 t1 v1)) = false)
    as -> by by vm_compute.
  assert (resolved_header (columns (scenario t0 v0 t1 v1)) =
          ["trip_id"; "timestamp"; "speed_kmph"]) as -> by by vm_compute.
  unfold time_series_of.
  assert (unique_labels SELECTED_COLUMNS ["trip_id"; "timestamp"; "speed_kmph"] = true)
    as -> by by vm_compute.
  unfold checked_rows, scenario. cbn [rows map fst snd].
  rewrite (scenario_row t0 v0 _ _ Ht0 Hv0 eq_refl),
    (scenario_row t1 v1 _ _ Ht1 Hv1 eq_refl).
  eexists _, _. split; [vm_compute; reflexivity|].
  by vm_compute.
Qed.
End scenario.

Lemma scenario_two_samples_witness :
  ∃ cleaned m,
    process_data (H := example_pandas) CHUNK_SIZE scenario_csv =
      Some (TimeSeries cleaned [] [m])
    ∧ TripMetrics.trip_id m = "A"
    ∧ TripMetrics.gap_count m = 1
    ∧ (TripMetrics.duration_minutes m == 10)%Q
    ∧ (TripMetrics.distance_km m == 60 * 600 / 3600)%Q.
Proof.
  apply (scenario_two_samples (H := example_pandas) CHUNK_SIZE
           "1970-01-01 00:00:00" "50" "1970-01-01 00:10:00" "60");
    vm_compute; reflexivity.
Defined.

(** C1 as stated fails: the distance of the scenario is not 50*600/3600. *)
Lemma scenario_distance_not_earlier_speed :
  ¬ ∃ m,
      final_metrics_of (process_data (H := example_pandas) CHUNK_SIZE scenario_csv) = [m]
      ∧ TripMetrics.gap_count m = 1
      ∧ (TripMetrics.duration_minutes m == 10)%Q
      ∧ (TripMetrics.distance_km m == 50 * 600 / 3600)%Q.
Proof.
  intros (m & Hm & _ & _ & Hdist).
  vm_compute in Hm. injection Hm as <-.
  vm_compute in Hdist. discriminate.
Qed.


(** ** The columns of the trip metrics, where there are trips *)

Lemma stable_sort_nonempty {A} (le : A → A → bool) (l : list A) :
  l ≠ [] → stable_sort le l ≠ [].
Proof.
  intros Hne Hnil. apply Hne. apply Permutation_nil_r.
  rewrite <- Hnil. symmetry. apply stable_sort_perm.
Qed.

Lemma metrics_nonempty r cleaned_df :
  is_Some (trip_id r) → r ∈ cleaned_df → metrics cleaned_df ≠ [].
Proof.
  intros [trip Htrip] Hin.
  assert (trip_keys cleaned_df ≠ []) as Hkeys.
  { apply stable_sort_nonempty. intros Hnil.
    assert (trip ∈ remove_dups (omap trip_id cleaned_df)) as Hk.
    { apply elem_of_remove_dups, list_elem_of_omap. by exists r. }
    rewrite Hnil in Hk. by apply elem_of_nil in Hk. }
  destruct cleaned_df as [|r0 df]; [by apply elem_of_nil in Hin|].
  unfold metrics. by destruct (trip_keys (r0 :: df)).
Qed.

Section columns.
Context `{Pandas}.

Lemma cleaned_rows_accepted cols rs r :
  r ∈ (checked_rows cols rs).1 →
  is_Some (trip_id r) ∧ is_Some (timestamp r) ∧ validation_status r = "valid".
Proof.
  unfold checked_rows. cbn [fst].
  intros [Hin Hmask]%list_elem_of_In%filter_In.
  apply in_map_iff in Hin as (row & <- & _).
  apply negb_true_iff in Hmask.
  split; [|split].
  - destruct (trip_id (validate_row cols row)) eqn:Htrip; [done|].
    assert (rejected_mask (validate_row cols row) = true) as Hr; [|congruence].
    apply rejected_mask_iff. by left.
  - destruct (timestamp (validate_row cols row)) eqn:Hts; [done|].
    assert (rejected_mask (validate_row cols row) = true) as Hr; [|congruence].
    apply rejected_mask_iff. by right; left.
  - by rewrite validate_row_status, Hmask.
Qed.

(** The reporting columns are there on the trip-level path, and on the
    time-series path once a row has been validated. *)
Lemma reporting_columns_present chunksize csv o :
  process_data chunksize csv = Some o →
  match o with
  | TripLevel _ _ => True
  | TimeSeries cleaned_df _ _ => cleaned_df ≠ []
  end →
  Forall (λ c, c ∈ trip_metrics_columns o) REPORTING_COLUMNS.
Proof.
  destruct o as [trip_metrics_df cleaned | cleaned_df rejected_df ms].
  - intros Hrun%process_data_trip_level _. unfold trip_level in Hrun.
    destruct (column_index "trip_id" _); [|done].
    destruct (unique_labels TRIP_LEVEL_SOURCES _); [|done].
    injection Hrun as <- _. cbn [trip_metrics_columns columns].
    apply (bool_decide_unpack _). by vm_compute.
  - intros [Hrows ->]%process_data_time_series Hne.
    cbn [trip_metrics_columns]. unfold final_metrics_columns.
    destruct cleaned_df as [|r df]; [done|].
    assert (is_Some (trip_id r)) as Htrip.
    { apply (cleaned_rows_accepted (resolved_header (columns csv)) (rows csv)).
      rewrite <- Hrows. apply list_elem_of_here. }
    pose proof (metrics_nonempty r (r :: df) Htrip (list_elem_of_here _ _)) as Hms.
    destruct (metrics (r :: df)); [done|].
    apply (bool_decide_unpack _). by vm_compute.
Qed.
End columns.

(** ** The properties at work on small files *)

Lemma chunk_partition_witness :
  ∃ valid rejected,
    validate_chunk (H := example_pandas) mixed_chunk = Some (valid, rejected)
    ∧ length valid + length rejected = 3.
Proof.
  eexists _, _. split; [vm_compute; reflexivity|].
  apply (chunk_partition (H := example_pandas) mixed_chunk). vm_compute; reflexivity.
Defined.


Lemma null_sensor_noted_witness :
  (∀ s, null_after_coercion (H := example_pandas) s
          ["trip_id"; "timestamp"] [Some "A"; Some "1970-01-01 00:00:00"])
  ∧ occurs_in "|all_sensors_invalid"
      (rejection_reasons
         (validate_row (H := example_pandas)
            ["trip_id"; "timestamp"] [Some "A"; Some "1970-01-01 00:00:00"]))
  ∧ validation_status
      (validate_row (H := example_pandas)
         ["trip_id"; "timestamp"] [Some "A"; Some "1970-01-01 00:00:00"]) = "rejected".
Proof.
  assert (∀ s, null_after_coercion (H := example_pandas) s
                 ["trip_id"; "timestamp"] [Some "A"; Some "1970-01-01 00:00:00"])
    as Hnull.
  { intros s. left. by destruct s. }
  split; [exact Hnull|].
  destruct (null_sensor_noted (H := example_pandas)
              ["trip_id"; "timestamp"] [Some "A"; Some "1970-01-01 00:00:00"])
    as [_ Hall].
  destruct (Hall Hnull) as (_ & Hreason & Hstatus).
  split; [exact Hreason | exact Hstatus].
Defined.

Lemma gap_count_counts_gaps_witness :
  ∃ cleaned m,
    process_data (H := example_pandas) CHUNK_SIZE scenario_csv =
      Some (TimeSeries cleaned [] [m])
    ∧ TripMetrics.gap_count m =
        length (List.filter exceeds_threshold (clipped_deltas [0; 600000000000]%Z)).
Proof.
  eexists _, _. split; [vm_compute; reflexivity|].
  eapply (gap_count_counts_gaps (H := example_pandas) CHUNK_SIZE scenario_csv _ [] [_] _
            [0; 600000000000]%Z).
  - vm_compute; reflexivity.
  - apply list_elem_of_here.
  - repeat constructor. by vm_compute.
  - vm_compute. reflexivity.
Defined.


(** * Further properties *)

(** ** Alias resolution *)

Lemma known_alias_of_entry k aliases c :
  (k, aliases) ∈ COLUMN_ALIASES → c ∈ aliases → c ∈ known_aliases.
Proof.
  intros Hk Hc. apply list_elem_of_In, in_concat. exists aliases.
  split; apply list_elem_of_In; [|done].
  apply list_elem_of_fmap. by exists (k, aliases).
Qed.

Lemma rename_map_None cols c : c ∉ known_aliases → rename_map cols !! c = None.
Proof.
  intros Hc. destruct (rename_map cols !! c) as [k|] eqn:Hlook; [|done].
  apply rename_map_lookup in Hlook as (al & Hal & [_ Hin]%first_alias_column_Some).
  destruct Hc. by eapply known_alias_of_entry.
Qed.

Lemma rename_map_canonical cols c k :
  rename_map cols !! c = Some k → k ∈ canonical_fields ∧ k ∈ known_aliases.
Proof.
  intros (al & Hal & _)%rename_map_lookup. split.
  - apply list_elem_of_fmap. by exists (k, al).
  - eapply known_alias_of_entry; [done|]. by apply canonical_own_alias.
Qed.

(** X4: resolution keeps the number and the positions of the columns; a
    column that is no known alias keeps its name, and a column that changes
    its name gets the canonical field it is an alias of. *)
Theorem resolve_columns_shape df :
  rows (resolve_columns df) = rows df
  ∧ length (columns (resolve_columns df)) = length (columns df)
  ∧ ∀ i c, columns df !! i = Some c →
      ∃ c', columns (resolve_columns df) !! i = Some c'
            ∧ (c ∉ known_aliases → c' = c)
            ∧ (c' ≠ c → ∃ aliases, (c', aliases) ∈ COLUMN_ALIASES ∧ c ∈ aliases).
Proof.
  split; [done|]. split; [apply length_map|].
  intros i c Hi. unfold resolve_columns, rename. cbn [columns].
  exists (default c (rename_map (columns df) !! c)). split; [|split].
  - change (map ?f ?l) with (f <$> l). by rewrite list_lookup_fmap, Hi.
  - intros Hc. by rewrite rename_map_None.
  - destruct (rename_map (columns df) !! c) as [k|] eqn:Hlook; [|done].
    intros _. apply rename_map_lookup in Hlook as (al & Hal & Hfirst).
    exists al. split; [done|]. by apply first_alias_column_Some in Hfirst as [_ ?].
Qed.

Lemma trip_level_signals_foreign sg :
  sg ∈ trip_level_signals → (sg ∉ known_aliases) ∧ (sg ∉ canonical_fields).
Proof.
  unfold trip_level_signals. rewrite !elem_of_cons, elem_of_nil.
  intros H; repeat destruct H as [H|H]; try done; subst;
    split; apply (bool_decide_unpack _); by vm_compute.
Qed.

Lemma signal_resolved_iff cols sg :
  sg ∈ trip_level_signals → sg ∈ resolved_columns cols ↔ sg ∈ cols.
Proof.
  intros [Hal Hcan]%trip_level_signals_foreign. unfold resolved_columns, rename.
  split.
  - intros (c & Hc & Hin)%list_elem_of_fmap.
    destruct (rename_map cols !! c) as [k|] eqn:Hlook; simpl in Hc; [|by subst].
    subst k. by apply rename_map_canonical in Hlook as [? _].
  - intros Hin. apply list_elem_of_fmap. exists sg. split; [|done].
    by rewrite rename_map_None.
Qed.

(** X2: the schema test gives the same answer before and after alias
    resolution; no trip-level signal is an alias or a canonical field. *)
Theorem is_trip_level_schema_resolved df :
  is_trip_level_schema (resolve_columns df) = is_trip_level_schema df.
Proof.
  unfold is_trip_level_schema.
  apply eq_true_iff_eq. rewrite !existsb_exists.
  assert (∀ sg, In sg trip_level_signals →
            bool_decide (sg ∈ columns (resolve_columns df)) = true ↔
            bool_decide (sg ∈ columns df) = true) as Hsignal.
  { intros sg Hsg%list_elem_of_In. rewrite !bool_decide_eq_true.
    apply (signal_resolved_iff (columns df) sg Hsg). }
  split; intros (sg & Hsg & Hin); exists sg; split; try done;
    by apply (Hsignal sg Hsg).
Qed.

(** Resolution maps a column into an alias list exactly when the column was
    in it. *)
Lemma renamed_alias_iff cols c k aliases :
  (k, aliases) ∈ COLUMN_ALIASES → c ∈ cols →
  default c (rename_map cols !! c) ∈ aliases ↔ c ∈ aliases.
Proof.
  intros Hk Hc.
  destruct (rename_map cols !! c) as [k'|] eqn:Hlook; simpl; [|done].
  apply rename_map_lookup in Hlook as (al' & Hal' & Hfirst).
  apply first_alias_column_Some in Hfirst as [_ Hcal'].
  pose proof (canonical_own_alias _ _ Hal') as Hown.
  pose proof COLUMN_ALIASES_disjoint as Hnd.
  assert (∀ x, x ∈ aliases → x ∈ al' → aliases = al') as Hsame.
  { clear -Hk Hal'. revert Hk Hal'. unfold COLUMN_ALIASES.
    rewrite !elem_of_cons, !elem_of_nil.
    intros H1 H2 x; repeat destruct H1 as [H1|H1]; try done; simplify_eq;
      repeat destruct H2 as [H2|H2]; try done; simplify_eq; try done;
      intros Hx1 Hx2; exfalso; revert Hx2;
      rewrite !elem_of_cons, elem_of_nil in Hx1;
      repeat destruct Hx1 as [Hx1|Hx1]; try done; subst x;
      apply (bool_decide_unpack _); by vm_compute. }
  split; intros Hin.
  - by rewrite (Hsame _ Hin Hown).
  - by rewrite (Hsame _ Hin Hcal').
Qed.

Lemma find_map_iff {A} (f : A → A) (p : A → bool) (l : list A) :
  (∀ x, x ∈ l → p (f x) = p x) →
  List.find p (map f l) = f <$> List.find p l.
Proof.
  induction l as [|x l IH]; intros Hp; [done|]. cbn [map List.find].
  rewrite (Hp x) by apply list_elem_of_here.
  destruct (p x); [done|]. apply IH. intros y Hy. apply Hp.
  by apply list_elem_of_further.
Qed.

Lemma first_alias_column_resolved cols k aliases :
  (k, aliases) ∈ COLUMN_ALIASES →
  first_alias_column aliases (resolved_columns cols) =
  (λ _, k) <$> first_alias_column aliases cols.
Proof.
  intros Hk. unfold first_alias_column, resolved_columns, rename.
  rewrite find_map_iff.
  - destruct (List.find _ cols) as [c|] eqn:Hfind; [|done].
    assert (rename_map cols !! c = Some k) as Hlook.
    { apply rename_map_lookup. by exists aliases. }
    simpl. by rewrite Hlook.
  - intros c Hc. apply bool_decide_ext. by apply renamed_alias_iff with k.
Qed.

Lemma resolved_columns_idem cols :
  resolved_columns (resolved_columns cols) = resolved_columns cols.
Proof.
  unfold resolved_columns at 1. unfold rename.
  transitivity (map id (resolved_columns cols)); [|apply map_id].
  apply map_ext_in. intros c Hc. unfold id.
  destruct (rename_map (resolved_columns cols) !! c) as [k|] eqn:Hlook; [|done].
  apply rename_map_lookup in Hlook as (al & Hal & Hfirst).
  rewrite (first_alias_column_resolved _ _ _ Hal) in Hfirst.
  destruct (first_alias_column al cols); by simplify_eq/=.
Qed.

(** X3: resolving an already resolved header changes nothing. *)
Theorem resolve_columns_idempotent df :
  resolve_columns (resolve_columns df) = resolve_columns df.
Proof.
  unfold resolve_columns. cbn [rows columns]. f_equal.
  apply (resolved_columns_idem (columns df)).
Qed.


(** ** Header normalisation *)

(** X1: normalising a normalised header changes nothing, and a normalised
    name is left alone by [str.strip] and by [str.lower]. *)
Theorem normalize_columns_idempotent df :
  normalize_columns (normalize_columns df) = normalize_columns df
  ∧ Forall (λ c, str_strip c = c ∧ str_lower c = c) (columns (normalize_columns df)).
Proof.
  split; [apply normalize_columns_idem|].
  unfold normalize_columns. cbn [columns]. apply Forall_forall.
  intros c' (c & -> & _)%list_elem_of_fmap. unfold str_lower, str_strip. split.
  - rewrite !list_ascii_of_string_of_list_ascii.
    by rewrite strip_ascii_map_lower, strip_ascii_idem.
  - rewrite !list_ascii_of_string_of_list_ascii. f_equal.
    rewrite map_map. apply map_ext. intros a. apply lower_ascii_idem.
Qed.

(** ** Validated rows *)

Lemma foldr_notes_ext (f g : sensor * (Q * Q) → string) l :
  (∀ entry, entry ∈ l → f entry = g entry) →
  foldr (λ entry rest, f entry +:+ rest) "" l =
  foldr (λ entry rest, g entry +:+ rest) "" l.
Proof.
  induction l as [|entry l IH]; intros Hext; [done|]. cbn [foldr].
  rewrite (Hext entry) by apply list_elem_of_here. f_equal.
  apply IH. intros e He. apply Hext. by apply list_elem_of_further.
Qed.

Lemma foldl_salvage_notes_exact l r :
  NoDup l.*1 →
  salvage_notes (foldl salvage_step r l) =
    salvage_notes r +:+
    foldr (λ (entry : sensor * (Q * Q)) rest,
             (if between entry.2.1 entry.2.2 (get_sensor entry.1 r)
              then "" else out_of_range_tag entry.1) +:+ rest) "" l.
Proof.
  revert r. induction l as [|[s [lo hi]] l IH]; intros r Hnd; cbn [foldl foldr].
  - by rewrite append_empty_r.
  - rewrite fmap_cons in Hnd. apply NoDup_cons in Hnd as [Hfresh Hnd].
    rewrite (IH _ Hnd), salvage_step_notes. cbn [fst snd].
    rewrite <- append_assoc. f_equal.
    + by destruct (between lo hi (get_sensor s r)); rewrite ?append_empty_r.
    + apply (foldr_notes_ext
               (λ entry, if between entry.2.1 entry.2.2
                              (get_sensor entry.1 (salvage_step r (s, (lo, hi))))
                         then "" else out_of_range_tag entry.1)
               (λ entry, if between entry.2.1 entry.2.2 (get_sensor entry.1 r)
                         then "" else out_of_range_tag entry.1)).
      intros [s' [lo' hi']] Hin. cbn [fst snd].
      rewrite salvage_step_sensor. case_decide as Heq; [|done]. subst s'.
      destruct Hfresh. apply list_elem_of_fmap. by exists (s, (lo', hi')).
Qed.

Section validation_extras.
Context `{Pandas}.

(** X9: a sensor value is stored exactly when the cell coerces to a number
  inside the inclusive range of the sensor, and it is stored unchanged. *)
Theorem stored_sensor_iff_in_range cols row s lo hi v :
(s, (lo, hi)) ∈ VALID_RANGES →
get_sensor s (validate_row cols row) = Some v ↔
coerce_float (series (sensor_name s) cols row) = Some v ∧ (lo <= v)%Q ∧ (v <= hi)%Q.
Proof.
intros Hin. rewrite (validate_row_sensor _ _ _ _ _ Hin).
destruct (coerce_float (series (sensor_name s) cols row)) as [x|]; cbn [between].
- destruct (Qle_bool lo x) eqn:Hlo, (Qle_bool x hi) eqn:Hhi; cbn [andb].
  + split; [|by intros [? _]]. intros [= ->].
    by rewrite <- !Qle_bool_iff.
  + split; [done|]. intros ([= ->] & _ & Hle%Qle_bool_iff). congruence.
  + split; [done|]. intros ([= ->] & Hle%Qle_bool_iff & _). congruence.
  + split; [done|]. intros ([= ->] & Hle%Qle_bool_iff & _). congruence.
- split; [done | by intros [? _]].
Qed.

(** X10: the rejection reasons are the reasons that apply, in the order
  trip_id, timestamp, sensors, each with its bar; the status is [valid] or
  [rejected]. *)
Theorem rejection_reasons_format cols row :
rejection_reasons (validate_row cols row) =
  ((if isna (series "trip_id" cols row) then "|missing_trip_id" else "")
   +:+ (if isna (series "timestamp" cols row ≫= to_datetime)
        then "|invalid_timestamp" else ""))
  +:+ (if all_nan (validate_row cols row) then "|all_sensors_invalid" else "")
∧ (validation_status (validate_row cols row) = "valid"
   ∨ validation_status (validate_row cols row) = "rejected").
Proof.
split.
- by rewrite validate_row_reasons, validate_row_trip_id, validate_row_timestamp.
- rewrite validate_row_status.
  destruct (rejected_mask (validate_row cols row)); auto.
Qed.

(** X11: the salvage notes name exactly the sensors that are null in the
  stored row, in the order of the range table. *)
Theorem salvage_notes_format cols row :
salvage_notes (validate_row cols row) =
notes_of (λ s, isna (get_sensor s (validate_row cols row))).
Proof.
rewrite validate_row_notes_raw. unfold sensor_validation.
rewrite (foldl_salvage_notes_exact _ _ VALID_RANGES_NoDup).
destruct (hard_rejects_fields (load_row cols row)) as (_ & _ & _ & -> & _).
change (salvage_notes (load_row cols row)) with "".
change ("" +:+ ?s) with s. unfold notes_of.
apply (foldr_notes_ext
         (λ entry, if between entry.2.1 entry.2.2
                        (get_sensor entry.1 (hard_rejects (load_row cols row)))
                   then "" else out_of_range_tag entry.1)
         (λ entry, if isna (get_sensor entry.1 (validate_row cols row))
                   then out_of_range_tag entry.1 else "")).
intros [s [lo hi]] Hin. cbn [fst snd].
rewrite (validate_row_sensor _ _ _ _ _ Hin), hard_rejects_load_sensor.
destruct (coerce_float (series (sensor_name s) cols row)) as [x|]; [|done].
by destruct (between lo hi (Some x)).
Qed.
End validation_extras.


(** ** The cleaned and the rejected datasets *)

Lemma List_filter_sublist {A} (p : A → bool) (l : list A) :
  List.filter p l `sublist_of` l.
Proof.
  induction l as [|x l IH]; [done|]. cbn [List.filter].
  destruct (p x); by constructor.
Qed.

Lemma all_nan_false r : all_nan r = false → ∃ s, is_Some (get_sensor s r).
Proof.
  unfold all_nan, VALID_RANGES. cbn [forallb fst]. intros Hnan.
  destruct (get_sensor SpeedKmph r) eqn:?; [by exists SpeedKmph; eauto|].
  destruct (get_sensor BatteryVoltage r) eqn:?; [by exists BatteryVoltage; eauto|].
  destruct (get_sensor BatteryCurrent r) eqn:?; [by exists BatteryCurrent; eauto|].
  destruct (get_sensor SocPercent r) eqn:?; [by exists SocPercent; eauto|].
  destruct (get_sensor MotorTempC r) eqn:?; [by exists MotorTempC; eauto|].
  destruct (get_sensor CellTempC r) eqn:?; [by exists CellTempC; eauto|].
  done.
Qed.

Lemma rejected_mask_eq r :
  rejected_mask r = negb (String.eqb (rejection_reasons r) "").
Proof. reflexivity. Qed.

Section run_extras.
Context `{Pandas}.

Lemma unrejected_row cols row :
rejected_mask (validate_row cols row) = false →
is_Some (trip_id (validate_row cols row))
∧ is_Some (timestamp (validate_row cols row))
∧ (∃ s, is_Some (get_sensor s (validate_row cols row)))
∧ rejection_reasons (validate_row cols row) = ""
∧ validation_status (validate_row cols row) = "valid".
Proof.
intros Hmask.
assert (¬ rejection_grounds (validate_row cols row)) as Hgrounds.
{ intros Hg%rejected_mask_iff. congruence. }
unfold rejection_grounds in Hgrounds.
split; [|split; [|split; [|split]]].
- destruct (trip_id (validate_row cols row)); [done|]. destruct Hgrounds. by left.
- destruct (timestamp (validate_row cols row)); [done|].
  destruct Hgrounds. by right; left.
- apply all_nan_false. apply not_true_is_false. intros Hnan.
  destruct Hgrounds. right; right. by apply (proj1 (all_nan_iff _)).
- rewrite rejected_mask_eq in Hmask. apply negb_false_iff in Hmask.
  by apply String.eqb_eq.
- by rewrite validate_row_status, Hmask.
Qed.

Lemma rejected_row cols row :
rejected_mask (validate_row cols row) = true →
rejection_reasons (validate_row cols row) ≠ ""
∧ validation_status (validate_row cols row) = "rejected".
Proof.
intros Hmask. split.
- rewrite rejected_mask_eq in Hmask. apply negb_true_iff in Hmask.
  by apply String.eqb_neq.
- by rewrite validate_row_status, Hmask.
Qed.

(** Where the rows of the two datasets come from. *)
Lemma cleaned_row_origin chunksize csv cleaned rejected ms r :
process_data chunksize csv = Some (TimeSeries cleaned rejected ms) →
r ∈ cleaned →
∃ row, r = validate_row (resolved_header (columns csv)) row
       ∧ rejected_mask r = false.
Proof.
intros [Hrows _]%process_data_time_series. unfold checked_rows in Hrows.
injection Hrows as -> ->.
intros [Hin Hmask]%list_elem_of_In%filter_In.
apply in_map_iff in Hin as (row & <- & _).
apply negb_true_iff in Hmask. by exists row.
Qed.

Lemma rejected_row_origin chunksize csv cleaned rejected ms r :
process_data chunksize csv = Some (TimeSeries cleaned rejected ms) →
r ∈ rejected →
∃ row, r = validate_row (resolved_header (columns csv)) row
       ∧ rejected_mask r = true.
Proof.
intros [Hrows _]%process_data_time_series. unfold checked_rows in Hrows.
injection Hrows as -> ->.
intros [Hin Hmask]%list_elem_of_In%filter_In.
apply in_map_iff in Hin as (row & <- & _). by exists row.
Qed.

Lemma cleaned_row_has_trip chunksize csv cleaned rejected ms r :
process_data chunksize csv = Some (TimeSeries cleaned rejected ms) →
r ∈ cleaned → is_Some (trip_id r) ∧ is_Some (timestamp r).
Proof.
intros Hrun Hr.
destruct (cleaned_row_origin _ _ _ _ _ _ Hrun Hr) as (row & -> & Hmask).
by destruct (unrejected_row _ _ Hmask) as (? & ? & _).
Qed.

(** X8: every row of the cleaned dataset has a trip_id, a parsed timestamp,
  at least one sensor value, no rejection reason and status [valid]; every
  row of the rejected dataset has a reason and status [rejected]. *)
Theorem cleaned_and_rejected_rows chunksize csv cleaned rejected ms :
process_data chunksize csv = Some (TimeSeries cleaned rejected ms) →
Forall (λ r, is_Some (trip_id r) ∧ is_Some (timestamp r)
             ∧ (∃ s, is_Some (get_sensor s r))
             ∧ rejection_reasons r = "" ∧ validation_status r = "valid") cleaned
∧ Forall (λ r, rejection_reasons r ≠ "" ∧ validation_status r = "rejected")
    rejected.
Proof.
intros Hrun. split; apply Forall_forall; intros r Hr.
- destruct (cleaned_row_origin _ _ _ _ _ _ Hrun Hr) as (row & -> & Hmask).
  by apply unrejected_row.
- destruct (rejected_row_origin _ _ _ _ _ _ Hrun Hr) as (row & -> & Hmask).
  by apply rejected_row.
Qed.

End run_extras.


(** ** The trip metrics of the time-series path *)

Lemma trip_keys_perm df : trip_keys df ≡ₚ remove_dups (omap trip_id df).
Proof. apply stable_sort_perm. Qed.

Lemma elem_of_trip_keys df k :
  k ∈ trip_keys df ↔ ∃ r, r ∈ df ∧ trip_id r = Some k.
Proof.
  rewrite trip_keys_perm, elem_of_remove_dups, list_elem_of_omap.
  naive_solver.
Qed.

(** X13: the metrics have a row for a trip exactly when a cleaned row
    carries its trip_id, and no trip has two rows. *)
Theorem metrics_one_row_per_trip cleaned_df :
  NoDup (TripMetrics.trip_id <$> metrics cleaned_df)
  ∧ ∀ trip, trip ∈ TripMetrics.trip_id <$> metrics cleaned_df ↔
            ∃ r, r ∈ cleaned_df ∧ trip_id r = Some trip.
Proof.
  rewrite metrics_trip_ids. split.
  - rewrite trip_keys_perm. apply NoDup_remove_dups.
  - apply elem_of_trip_keys.
Qed.

Lemma sum_list_cons (n : nat) (l : list nat) : sum_list (n :: l) = n + sum_list l.
Proof. reflexivity. Qed.

Lemma group_cons r df trip :
  group trip (r :: df) =
  if bool_decide (trip_id r = Some trip) then r :: group trip df else group trip df.
Proof. reflexivity. Qed.

Lemma group_count_sum (keys : list string) (df : list reading) :
  NoDup keys →
  Forall (λ r, ∃ trip, trip_id r = Some trip ∧ trip ∈ keys) df →
  sum_list ((λ trip, length (group trip df)) <$> keys) = length df.
Proof.
  intros Hnd. induction 1 as [|r df (trip & Htrip & Hin) _ IH].
  - clear Hnd. induction keys as [|k keys IHk]; [done|].
    by rewrite fmap_cons, sum_list_cons, IHk.
  - cbn [length]. rewrite <- IH. clear IH.
    induction keys as [|k keys IHk]; [by apply elem_of_nil in Hin|].
    apply NoDup_cons in Hnd as [Hfresh Hnd].
    rewrite !fmap_cons, !sum_list_cons, group_cons, Htrip.
    apply elem_of_cons in Hin as [-> | Hin].
    + rewrite bool_decide_true by done. cbn [length].
      assert ((λ trip, length (group trip (r :: df))) <$> keys =
              (λ trip, length (group trip df)) <$> keys) as ->; [|lia].
      apply list_fmap_ext. intros i k' Hk'%list_elem_of_lookup_2.
      rewrite group_cons, Htrip.
      rewrite bool_decide_false; [done|]. by intros [= ->].
    + rewrite bool_decide_false.
      * rewrite (IHk Hnd Hin). lia.
      * by intros [= ->].
Qed.

Lemma dt_sec_length g : length (dt_sec g) = length g.
Proof.
  unfold dt_sec, diff. rewrite length_map.
  destruct g as [|r g]; [done|]. cbn [map length]. f_equal.
  rewrite length_zip_with. cbn [length]. rewrite !length_map. lia.
Qed.

Lemma gap_count_lt g :
  g ≠ [] → length (List.filter is_gap (dt_sec g)) < length g.
Proof.
  intros Hg. rewrite <- (dt_sec_length g).
  unfold dt_sec, diff. destruct g as [|r g]; [done|].
  cbn [map List.filter fmap option_fmap option_map is_gap length].
  apply Nat.lt_succ_r. apply sublist_length, List_filter_sublist.
Qed.

Section metrics_extras.
Context `{Pandas}.

(** X14: the row counts of the trips add up to the number of cleaned rows;
  every trip has at least one row and fewer gaps than rows. *)
Theorem metrics_rows_account chunksize csv cleaned rejected ms :
process_data chunksize csv = Some (TimeSeries cleaned rejected ms) →
sum_list (TripMetrics.rows <$> ms) = length cleaned
∧ Forall (λ m, 1 ≤ TripMetrics.rows m
               ∧ TripMetrics.gap_count m < TripMetrics.rows m) ms.
Proof.
intros Hrun.
pose proof (λ r, cleaned_row_has_trip _ _ _ _ _ r Hrun) as Hclean.
apply process_data_time_series in Hrun as [_ ->].
assert (∀ m, m ∈ metrics cleaned →
          TripMetrics.rows m = length (group (TripMetrics.trip_id m) cleaned)
          ∧ group (TripMetrics.trip_id m) cleaned ≠ []) as Hrows.
{ intros m [Hm Hkey]%elem_of_metrics. split.
  - rewrite Hm at 1. unfold trip_row. cbn [TripMetrics.rows].
    by rewrite sort_values_timestamp_perm.
  - apply elem_of_trip_keys in Hkey as (r & Hr & Htrip).
    intros Hnil. assert (r ∈ group (TripMetrics.trip_id m) cleaned) as Hin.
    { apply list_elem_of_In, filter_In. split; [by apply list_elem_of_In|].
      by apply bool_decide_eq_true. }
    rewrite Hnil in Hin. by apply elem_of_nil in Hin. }
split.
- transitivity (sum_list ((λ trip, length (group trip cleaned)) <$> trip_keys cleaned)).
  + rewrite <- metrics_trip_ids, <- list_fmap_compose. f_equal.
    apply list_fmap_ext. intros i m Hm%list_elem_of_lookup_2.
    by apply Hrows.
  + apply group_count_sum.
    * rewrite trip_keys_perm. apply NoDup_remove_dups.
    * apply Forall_forall. intros r Hr.
      destruct (Hclean r Hr) as ([trip Htrip] & _).
      exists trip. split; [done|]. apply elem_of_trip_keys. by exists r.
- apply Forall_forall. intros m Hm. destruct (Hrows m Hm) as [Hlen Hne].
  apply elem_of_metrics in Hm as [Hm _].
  assert (sort_values_timestamp (group (TripMetrics.trip_id m) cleaned) ≠ [])
    as Hsorted.
  { intros Hnil. apply Hne. apply Permutation_nil_r.
    by rewrite <- Hnil, sort_values_timestamp_perm. }
  split.
  + rewrite Hlen. destruct (group _ cleaned); [done | cbn [length]; lia].
  + rewrite Hm. unfold trip_row. cbn [TripMetrics.gap_count TripMetrics.rows].
    by apply gap_count_lt.
Qed.
End metrics_extras.


(** ** The numbers of a trip *)

Lemma clip_lower_0_nonneg x : (0 <= clip_lower_0 x)%Q.
Proof.
  unfold clip_lower_0. destruct (Qle_bool 0 x) eqn:Hx; [|apply Qle_refl].
  by apply Qle_bool_iff.
Qed.

Lemma Qsum_nonneg l : Forall (λ x, (0 <= x)%Q) l → (0 <= Qsum l)%Q.
Proof.
  induction 1 as [|x l Hx _ IH]; [apply Qle_refl|]. unfold Qsum. cbn [foldr].
  replace 0%Q with (0 + 0)%Q by reflexivity. by apply Qplus_le_compat.
Qed.

Lemma dt_sec_nonneg g : Forall (λ d, ∀ x, d = Some x → (0 <= x)%Q) (dt_sec g).
Proof.
  unfold dt_sec. apply Forall_forall. intros d Hd x ->.
  apply list_elem_of_In, in_map_iff in Hd as ([ns|] & Hns & _); [|done].
  injection Hns as <-. apply clip_lower_0_nonneg.
Qed.

Lemma sum_skipna_nonneg l :
  Forall (λ d, ∀ x, d = Some x → (0 <= x)%Q) l → (0 <= sum_skipna l)%Q.
Proof.
  intros Hl. unfold sum_skipna. apply Qsum_nonneg, Forall_forall.
  intros x (d & Hd & Hx)%list_elem_of_omap. rewrite Forall_forall in Hl.
  apply (Hl d Hd). by destruct d; simplify_eq/=.
Qed.

Lemma Qdiv_nonneg a b : (0 <= a)%Q → (0 < b)%Q → (0 <= a / b)%Q.
Proof.
  intros Ha Hb. apply Qle_shift_div_l; [done|]. by rewrite Qmult_0_l.
Qed.

Lemma distance_nonneg speeds dt :
  Forall (λ v, ∀ x, v = Some x → (0 <= x)%Q) speeds →
  Forall (λ d, ∀ x, d = Some x → (0 <= x)%Q) dt →
  (0 <= Qsum (zip_with (λ v d, fillna_0 v * fillna_0 d / 3600)%Q speeds dt))%Q.
Proof.
  intros Hv Hd. apply Qsum_nonneg. revert dt Hd.
  induction Hv as [|v speeds Hv0 _ IH]; intros dt Hd; [constructor|].
  destruct Hd as [|d dt Hd0 Hd]; [constructor|]. cbn [zip_with].
  constructor; [|by apply IH].
  apply Qdiv_nonneg; [|done]. apply Qmult_le_0_compat.
  - destruct v; [by apply Hv0 | apply Qle_refl].
  - destruct d; [by apply Hd0 | apply Qle_refl].
Qed.

Lemma get_sensor_speed r : get_sensor SpeedKmph r = speed_kmph r.
Proof. reflexivity. Qed.

Section numbers_extras.
Context `{Pandas}.

(** X15: the duration and the distance of every trip of a run are not
  negative: the deltas are clipped at zero and the speeds that passed the
  validation are at least zero. *)
Theorem duration_and_distance_nonneg chunksize csv cleaned rejected ms :
process_data chunksize csv = Some (TimeSeries cleaned rejected ms) →
Forall (λ m, (0 <= TripMetrics.duration_minutes m)%Q
             ∧ (0 <= TripMetrics.distance_km m)%Q) ms.
Proof.
intros Hrun. apply Forall_forall. intros m Hm.
assert (ms = metrics cleaned) as ->
  by by apply process_data_time_series in Hrun as [_ ?].
apply elem_of_metrics in Hm as [Hm _]. rewrite Hm. unfold trip_row.
cbn [TripMetrics.duration_minutes TripMetrics.distance_km].
set (g := sort_values_timestamp (group (TripMetrics.trip_id m) cleaned)).
split.
- apply Qdiv_nonneg; [|done]. apply sum_skipna_nonneg, dt_sec_nonneg.
- apply distance_nonneg; [|apply dt_sec_nonneg].
  apply Forall_forall. intros v Hv x ->.
  apply list_elem_of_In, in_map_iff in Hv as (r & Hspeed & Hr).
  assert (r ∈ cleaned) as Hclean.
  { apply list_elem_of_In in Hr. unfold g in Hr.
    rewrite sort_values_timestamp_perm in Hr.
    by apply list_elem_of_In, filter_In in Hr as [?%list_elem_of_In _]. }
  rewrite <- get_sensor_speed in Hspeed.
  destruct (cleaned_row_origin _ _ _ _ _ _ Hrun Hclean) as (row & -> & _).
  rewrite (validate_row_sensor _ _ SpeedKmph 0 250) in Hspeed
    by apply list_elem_of_here.
  destruct (between 0 250 _) eqn:Hb; [|done]. rewrite Hspeed in Hb.
  apply andb_true_iff in Hb as [Hlo _]. by apply Qle_bool_iff.
Qed.
End numbers_extras.


(** ** Extrema with [skipna] *)

Section extremum.
Variable pick : Q → Q → Q.
Variable le : Q → Q → Prop.
Hypothesis le_refl : ∀ x, le x x.
Hypothesis le_trans : ∀ x y z, le x y → le y z → le x z.
Hypothesis pick_l : ∀ a b, le a (pick a b).
Hypothesis pick_r : ∀ a b, le b (pick a b).
Hypothesis pick_one : ∀ a b, pick a b = a ∨ pick a b = b.

Lemma foldl_skipna_from l a :
∃ m, foldl (skipna_step pick) (Some a) l = Some m
     ∧ le a m
     ∧ (∀ x, Some x ∈ l → le x m)
     ∧ (m = a ∨ Some m ∈ l).
Proof.
revert a. induction l as [|[b|] l IH]; intros a; cbn [foldl skipna_step].
- exists a. split; [done|]. split; [apply le_refl|]. split; [|by left].
  by intros x ?%elem_of_nil.
- destruct (IH (pick a b)) as (m & -> & Hle & Hall & Hm). exists m.
  split; [done|].
  split; [by apply (le_trans _ (pick a b)); [apply pick_l|]|]. split.
  + intros x [[= ->] | Hx]%elem_of_cons; [|by apply Hall].
    by apply (le_trans _ (pick a b)); [apply pick_r|].
  + destruct Hm as [-> | Hm]; [|by right; right].
    destruct (pick_one a b) as [-> | ->]; [by left|]. right. by left.
- destruct (IH a) as (m & -> & Hle & Hall & Hm). exists m.
  split; [done|]. split; [done|]. split.
  + intros x [[=] | Hx]%elem_of_cons. by apply Hall.
  + destruct Hm as [-> | Hm]; [by left|]. by right; right.
Qed.

Lemma foldl_skipna_extremum l :
extremum_of le l (foldl (skipna_step pick) None l).
Proof.
induction l as [|[b|] l IH]; cbn [foldl skipna_step].
- by intros x ?%elem_of_nil.
- destruct (foldl_skipna_from l b) as (m & -> & Hle & Hall & Hm).
  split.
  + destruct Hm as [-> | Hm]; [by left | by right].
  + by intros x [[= ->] | Hx]%elem_of_cons; [|apply Hall].
- destruct (foldl (skipna_step pick) None l) as [m|]; cbn [extremum_of] in *.
  + destruct IH as [Hin Hall]. split; [by right|].
    intros x [[=] | Hx]%elem_of_cons. by apply Hall.
  + intros x [-> | Hx]%elem_of_cons; [done | by apply IH].
Qed.
End extremum.

Lemma max_skipna_extremum l : extremum_of Qle l (max_skipna l).
Proof.
  apply (foldl_skipna_extremum (λ a b, if Qle_bool a b then b else a) Qle).
  - apply Qle_refl.
  - apply Qle_trans.
  - intros a b. destruct (Qle_bool a b) eqn:Hab; [by apply Qle_bool_iff|].
    apply Qle_refl.
  - intros a b. destruct (Qle_bool a b) eqn:Hab; [apply Qle_refl|].
    apply Qlt_le_weak, Qnot_le_lt. intros Hle%Qle_bool_iff. congruence.
  - intros a b. destruct (Qle_bool a b); auto.
Qed.

Lemma min_skipna_extremum l : extremum_of (flip Qle) l (min_skipna l).
Proof.
  apply (foldl_skipna_extremum (λ a b, if Qle_bool a b then a else b) (flip Qle)).
  - intros x. apply Qle_refl.
  - intros x y z Hxy Hyz. unfold flip in *. by eapply Qle_trans.
  - intros a b. unfold flip. destruct (Qle_bool a b) eqn:Hab; [apply Qle_refl|].
    apply Qlt_le_weak, Qnot_le_lt. intros Hle%Qle_bool_iff. congruence.
  - intros a b. unfold flip. destruct (Qle_bool a b) eqn:Hab; [|apply Qle_refl].
    by apply Qle_bool_iff.
  - intros a b. destruct (Qle_bool a b); auto.
Qed.

Lemma extremum_of_perm le vals vals' res :
  vals ≡ₚ vals' → extremum_of le vals res → extremum_of le vals' res.
Proof.
  intros Hperm. unfold extremum_of. destruct res as [v|].
  - intros [Hin Hall]. split; [by rewrite <- Hperm|].
    intros x Hx. apply Hall. by rewrite Hperm.
  - intros Hall x Hx. apply Hall. by rewrite Hperm.
Qed.

Lemma sorted_column_perm (f : reading → option Q) g :
  map f (sort_values_timestamp g) ≡ₚ f <$> g.
Proof.
  change (map f ?l) with (f <$> l). by rewrite sort_values_timestamp_perm.
Qed.

(** X16: each extremum of the metrics is the largest (for the battery
    voltage, the smallest) value the rows of the trip have in that column,
    and it is null exactly when no row of the trip has a value there. *)
Theorem metrics_extrema cleaned_df m :
  m ∈ metrics cleaned_df →
  extremum_of Qle (speed_kmph <$> group (TripMetrics.trip_id m) cleaned_df)
    (TripMetrics.max_speed m)
  ∧ extremum_of Qle (motor_temp_c <$> group (TripMetrics.trip_id m) cleaned_df)
      (TripMetrics.max_motor_temp m)
  ∧ extremum_of Qle (cell_temp_c <$> group (TripMetrics.trip_id m) cleaned_df)
      (TripMetrics.max_cell_temp m)
  ∧ extremum_of Qle (battery_current <$> group (TripMetrics.trip_id m) cleaned_df)
      (TripMetrics.max_current m)
  ∧ extremum_of (flip Qle)
      (battery_voltage <$> group (TripMetrics.trip_id m) cleaned_df)
      (TripMetrics.min_battery_voltage m).
Proof.
  intros [Hm _]%elem_of_metrics. rewrite Hm at 2 4 6 8 10. unfold trip_row.
  cbn [TripMetrics.max_speed TripMetrics.max_motor_temp TripMetrics.max_cell_temp
       TripMetrics.max_current TripMetrics.min_battery_voltage].
  repeat split;
    (eapply extremum_of_perm; [apply sorted_column_perm|]);
    first [apply max_skipna_extremum | apply min_skipna_extremum].
Qed.

(** ** A trip of one sample *)

(** X17: a trip with a single validated row has one row, no gap, a duration
    and a distance of zero, and the speed of that row as its maximum. *)
Theorem single_sample_trip cleaned_df m r :
  m ∈ metrics cleaned_df →
  group (TripMetrics.trip_id m) cleaned_df = [r] →
  TripMetrics.rows m = 1
  ∧ TripMetrics.gap_count m = 0
  ∧ (TripMetrics.duration_minutes m == 0)%Q
  ∧ (TripMetrics.distance_km m == 0)%Q
  ∧ TripMetrics.max_speed m = speed_kmph r.
Proof.
  intros [Hm _]%elem_of_metrics Hg. rewrite Hm, Hg. unfold trip_row.
  change (sort_values_timestamp [r]) with [r].
  cbn [TripMetrics.rows TripMetrics.gap_count TripMetrics.duration_minutes
       TripMetrics.distance_km TripMetrics.max_speed].
  split; [done|]. split; [done|]. split; [done|]. split.
  - unfold dt_sec, diff. cbn [map zip_with fmap option_fmap option_map Qsum foldr
                              fillna_0 default].
    destruct (speed_kmph r) as [[n d]|]; cbn; unfold Qeq; cbn; lia.
  - unfold max_skipna. cbn [map foldl]. by destruct (speed_kmph r).
Qed.


(** ** The deltas of a sorted trip *)

Lemma clip_lower_0_id ns : (0 ≤ ns)%Z → clip_lower_0 (total_seconds ns) = total_seconds ns.
Proof.
  intros Hns. unfold clip_lower_0.
  assert (Qle_bool 0 (total_seconds ns) = true) as ->; [|done].
  apply Qle_bool_iff. unfold Qle, total_seconds. cbn [Qnum Qden]. lia.
Qed.

Lemma diff_cons t ts :
  diff (t :: ts) =
  None :: zip_with (λ prev cur,
                      match prev, cur with
                      | Some a, Some b => Some (b - a)%Z
                      | _, _ => None
                      end) (t :: ts) ts.
Proof. reflexivity. Qed.

(** No instant of an ascending column is before the one above it. *)
Lemma diff_sorted_nonneg ts :
  Sorted instant_order ts →
  Forall (λ d, ∀ ns, d = Some ns → (0 ≤ ns)%Z) (diff ts).
Proof.
  destruct ts as [|t ts]; [constructor|]. rewrite diff_cons.
  intros Hsorted. constructor; [done|].
  revert t Hsorted. induction ts as [|u ts IH]; intros t Hsorted; [constructor|].
  apply Sorted_inv in Hsorted as [Hsorted Hhd]. apply HdRel_inv in Hhd.
  cbn [zip_with]. constructor; [|by apply IH].
  destruct t as [a|], u as [b|]; try done.
  intros ns [= <-]. unfold instant_order in Hhd. cbn in Hhd.
  apply Is_true_true, Z.leb_le in Hhd. lia.
Qed.

Lemma clip_nonneg_deltas (ds : list (option Z)) :
  Forall (λ d, ∀ ns, d = Some ns → (0 ≤ ns)%Z) ds →
  map (fmap (λ ns, clip_lower_0 (total_seconds ns))) ds =
  map (fmap total_seconds) ds.
Proof.
  induction 1 as [|d ds Hd _ IH]; [done|]. cbn [map]. rewrite IH. f_equal.
  destruct d as [ns|]; [|done]. cbn [fmap option_fmap option_map].
  by rewrite clip_lower_0_id by by apply Hd.
Qed.

(** X18: the rows of a trip are sorted by timestamp before the deltas are
    taken, so no delta is negative and the clipping at zero changes none of
    them. *)
Theorem clip_changes_no_delta (g : list reading) :
  Forall (λ d, ∀ ns, d = Some ns → (0 ≤ ns)%Z)
    (diff (map timestamp (sort_values_timestamp g)))
  ∧ dt_sec (sort_values_timestamp g) =
    map (fmap total_seconds) (diff (map timestamp (sort_values_timestamp g))).
Proof.
  assert (Forall (λ d, ∀ ns, d = Some ns → (0 ≤ ns)%Z)
            (diff (map timestamp (sort_values_timestamp g)))) as Hnonneg.
  { apply diff_sorted_nonneg. apply sort_values_timestamp_Sorted. }
  split; [done|]. unfold dt_sec. by apply clip_nonneg_deltas.
Qed.


(** ** The choice of the path and the trip-level outputs *)

Lemma column_index_None c cols : column_index c cols = None ↔ c ∉ cols.
Proof.
  induction cols as [|c' cols IH]; cbn [column_index].
  - split; [intros _; apply not_elem_of_nil | done].
  - rewrite not_elem_of_cons. destruct (String.eqb_spec c' c) as [-> | Hne].
    + split; [done | by intros [? _]].
    + destruct (column_index c cols); cbn; split; try done.
      * intros [_ Hc]. by apply IH in Hc.
      * intros _. split; [done | by apply IH].
Qed.

Lemma is_trip_level_schema_iff df :
  is_trip_level_schema df = true ↔
  ∃ sg, sg ∈ trip_level_signals ∧ sg ∈ columns df.
Proof.
  unfold is_trip_level_schema. rewrite existsb_exists.
  split; intros (sg & Hsg & Hin); exists sg.
  - split; [by apply list_elem_of_In|]. by apply bool_decide_eq_true in Hin.
  - split; [by apply list_elem_of_In|]. by apply bool_decide_eq_true.
Qed.

Lemma trip_level_absent_source cols row i source :
  TRIP_LEVEL_SOURCES !! i = Some source →
  column_index source cols = None →
  map (λ c, series c cols row) TRIP_LEVEL_SOURCES !! i = Some None.
Proof.
  intros Hi Hsource. change (map ?f ?l) with (f <$> l).
  rewrite list_lookup_fmap, Hi. cbn. unfold series. by rewrite Hsource.
Qed.

Section trip_level_extras.
Context `{Pandas}.

Lemma process_data_by_schema chunksize csv :
process_data chunksize csv =
  if is_trip_level_schema (normalize_columns csv) then
    '(trip_metrics_df, df) ← trip_level (normalize_columns csv);
    Some (TripLevel trip_metrics_df df)
  else time_series_of (resolved_header (columns csv)) (rows csv).
Proof.
rewrite process_data_single_chunk. apply process_chunks_of_file.
- by repeat constructor.
- cbn [map concat]. apply app_nil_r.
Qed.

(** X5: a run takes the trip-level path exactly when the normalised header
  has one of the signal columns; the validation is then never run. *)
Theorem path_follows_signals chunksize csv o :
process_data chunksize csv = Some o →
(∃ sg, sg ∈ trip_level_signals ∧ sg ∈ columns (normalize_columns csv)) ↔
∃ trip_metrics_df cleaned, o = TripLevel trip_metrics_df cleaned.
Proof.
rewrite process_data_by_schema, <- is_trip_level_schema_iff.
destruct (is_trip_level_schema (normalize_columns csv)).
- destruct (trip_level (normalize_columns csv)) as [[tm cl]|]; [|done].
  intros [= <-]. split; [by eexists _, _ | done].
- unfold time_series_of. case_match; [|done]. intros [= <-].
  split; [done|]. by intros (? & ? & ?).
Qed.

(** X6: on the trip-level path a header in which no column is a spelling of
  trip_id ends the run with an error ([KeyError]), before any output is
  written. *)
Theorem trip_level_needs_trip_id chunksize csv :
is_trip_level_schema (normalize_columns csv) = true →
(∀ c, c ∈ columns (normalize_columns csv) →
      c ∉ ["trip_id"; "tripid"; "vehicle_id"; "vehicleid"]) →
process_data chunksize csv = None.
Proof.
intros Hschema Hnone. rewrite process_data_by_schema, Hschema.
unfold trip_level.
assert (column_index "trip_id" (columns (resolve_columns (normalize_columns csv)))
        = None) as ->; [|done].
apply column_index_None. intros Hin.
apply (canonical_resolved_iff _ "trip_id"
         ["trip_id"; "tripid"; "vehicle_id"; "vehicleid"]) in Hin
  as (c & Hc & Hal); [by destruct (Hnone c Hc)|].
apply list_elem_of_here.
Qed.

(** X7: the trip metrics of the trip-level path have the eight columns and
  as many rows as the cleaned file, each of eight cells with a trip_id; a
  source column that the file lacks gives a null in every row. *)
Theorem trip_level_metrics_shape chunksize csv trip_metrics_df cleaned :
process_data chunksize csv = Some (TripLevel trip_metrics_df cleaned) →
columns trip_metrics_df = TRIP_LEVEL_COLUMNS
∧ length (rows trip_metrics_df) = length (rows cleaned)
∧ rows cleaned `sublist_of` rows csv
∧ Forall (λ row, length row = 8 ∧ ∃ trip, row !! 0 = Some (Some trip))
    (rows trip_metrics_df)
∧ ∀ i source, TRIP_LEVEL_SOURCES !! i = Some source →
    source ∉ columns cleaned →
    Forall (λ row, row !! i = Some None) (rows trip_metrics_df).
Proof.
intros Hrun%process_data_trip_level. unfold trip_level in Hrun.
destruct (column_index "trip_id" _); [|done].
destruct (unique_labels TRIP_LEVEL_SOURCES _); [|done].
injection Hrun as <- <-. cbn [columns rows].
split; [done|]. split; [apply length_map|].
split; [apply List_filter_sublist|]. split.
- apply Forall_forall. intros row' Hrow'.
  apply list_elem_of_In, in_map_iff in Hrow' as (row & <- & Hrow).
  split; [done|]. apply filter_In in Hrow as [_ Hna].
  cbn [map TRIP_LEVEL_SOURCES lookup list_lookup].
  destruct (series "trip_id" _ row) as [trip|]; [by exists trip | done].
- intros i source Hi Hsource. apply Forall_forall. intros row' Hrow'.
  apply list_elem_of_In, in_map_iff in Hrow' as (row & <- & _).
  apply column_index_None in Hsource.
  apply (trip_level_absent_source _ row i source Hi Hsource).
Qed.
End trip_level_extras.

Lemma trip_level_needs_trip_id_witness :
  process_data (H := example_pandas) CHUNK_SIZE no_trip_id_csv = None.
Proof.
  apply (trip_level_needs_trip_id (H := example_pandas)).
  - by vm_compute.
  - apply Forall_forall. apply (bool_decide_unpack _). by vm_compute.
Defined.


(** ** Cluster labels of the dashboard *)

Lemma pretty_N_char_no_dash n : Ascii.eqb (pretty_N_char n) "-" = false.
Proof. unfold pretty_N_char. by repeat case_match. Qed.

Lemma pretty_N_go_no_dash x s :
  no_dash s = true → no_dash (pretty_N_go x s) = true.
Proof.
  revert s. induction (N.lt_wf_0 x) as [x _ IH]; intros s Hs.
  destruct (decide (x = 0)%N) as [-> | Hx]; [by rewrite pretty_N_go_0|].
  rewrite pretty_N_go_step by lia. apply IH.
  - apply N.div_lt; lia.
  - cbn [no_dash]. by rewrite pretty_N_char_no_dash, Hs.
Qed.

Lemma pretty_Z_no_dash (x : Z) : (0 ≤ x)%Z → no_dash (pretty x) = true.
Proof.
  destruct x as [|p|p]; [done | | lia]. intros _.
  unfold pretty, pretty_Z, pretty, pretty_positive, pretty, pretty_N.
  case_decide; [done|]. by apply pretty_N_go_no_dash.
Qed.

Lemma append_empty_l (s : string) : "" +:+ s = s.
Proof. reflexivity. Qed.

Lemma dash_split a a' b b' :
  no_dash a = true → no_dash a' = true →
  a +:+ "-" +:+ b = a' +:+ "-" +:+ b' → a = a' ∧ b = b'.
Proof.
  revert a'. induction a as [|x a IH]; intros [|x' a'] Ha Ha' Heq;
    rewrite ?append_empty_l, ?append_cons, ?append_empty_l in Heq.
  - by injection Heq as ->.
  - cbn [no_dash] in Ha'. apply andb_true_iff in Ha' as [Hx' _].
    injection Heq as <- _. done.
  - cbn [no_dash] in Ha. apply andb_true_iff in Ha as [Hx _].
    injection Heq as -> _. done.
  - injection Heq as -> Heq.
    cbn [no_dash] in Ha, Ha'.
    apply andb_true_iff in Ha as [_ Ha]. apply andb_true_iff in Ha' as [_ Ha'].
    destruct (IH a' Ha Ha' Heq) as [-> ->]. done.
Qed.

(** X19: for a positive bucket size and a trip index between 1 and the
    number of trips, the bucket named by the label starts at a multiple of
    the size plus one, holds the index, has at most [size] indices and does
    not go beyond the last trip. *)
Theorem cluster_bounds idx total size :
  (0 < size)%Z → (1 ≤ idx ≤ total)%Z →
  make_cluster_label idx total size =
    Some (pretty (cluster_start idx size) +:+ "-"
          +:+ pretty (cluster_end idx total size))
  ∧ (cluster_start idx size ≤ idx ≤ cluster_end idx total size)%Z
  ∧ (cluster_end idx total size ≤ total)%Z
  ∧ (cluster_end idx total size - cluster_start idx size < size)%Z
  ∧ ((cluster_start idx size - 1) `mod` size = 0)%Z.
Proof.
  intros Hsize Hidx. unfold make_cluster_label, cluster_end, cluster_start.
  case_decide; [lia|]. split; [done|].
  pose proof (Z.div_mod (idx - 1) size ltac:(lia)) as Hdiv.
  pose proof (Z.mod_pos_bound (idx - 1) size Hsize) as Hmod.
  repeat split; try lia.
  replace ((idx - 1) `div` size * size + 1 - 1)%Z
    with ((idx - 1) `div` size * size)%Z by lia.
  apply Z.mod_mul. lia.
Qed.

Lemma cluster_bounds_witness :
  make_cluster_label 73 120 CLUSTER_SIZE = Some "51-100"
  ∧ (cluster_start 73 CLUSTER_SIZE ≤ 73 ≤ cluster_end 73 120 CLUSTER_SIZE)%Z.
Proof.
  destruct (cluster_bounds 73 120 CLUSTER_SIZE) as (Hlabel & Hin & _).
  - by vm_compute.
  - by vm_compute.
  - split; [|exact Hin]. rewrite Hlabel. by vm_compute.
Defined.

(** X20: two trips get the same label exactly when they are in the same
    bucket: the labels of different buckets differ. *)
Theorem cluster_label_same_bucket idx idx' total size :
  (0 < size)%Z → (1 ≤ idx)%Z → (1 ≤ idx')%Z →
  make_cluster_label idx total size = make_cluster_label idx' total size ↔
  ((idx - 1) `div` size = (idx' - 1) `div` size)%Z.
Proof.
  intros Hsize Hidx Hidx'. unfold make_cluster_label.
  case_decide; [lia|]. split.
  - intros [= Heq].
    assert (0 ≤ (idx - 1) `div` size)%Z by (apply Z.div_pos; lia).
    assert (0 ≤ (idx' - 1) `div` size)%Z by (apply Z.div_pos; lia).
    apply dash_split in Heq as [Hstart%(inj pretty) _].
    + unfold cluster_start in Hstart. nia.
    + apply pretty_Z_no_dash. unfold cluster_start. nia.
    + apply pretty_Z_no_dash. unfold cluster_start. nia.
  - intros Hq. unfold cluster_end, cluster_start. by rewrite Hq.
Qed.

Lemma cluster_label_same_bucket_witness :
  make_cluster_label 51 120 CLUSTER_SIZE = make_cluster_label 100 120 CLUSTER_SIZE
  ∧ make_cluster_label 50 120 CLUSTER_SIZE ≠ make_cluster_label 51 120 CLUSTER_SIZE.
Proof.
  split.
  - apply (cluster_label_same_bucket 51 100 120 CLUSTER_SIZE); by vm_compute.
  - intros Heq.
    apply (cluster_label_same_bucket 50 51 120 CLUSTER_SIZE) in Heq;
      by vm_compute in *.
Defined.


(** ** The further properties at work on small files *)

Lemma stored_sensor_iff_in_range_witness :
  get_sensor BatteryVoltage
    (validate_row (H := example_pandas)
       ["trip_id"; "timestamp"; "speed_kmph"; "battery_voltage"]
       [Some "A"; Some "1970-01-01 00:00:00"; Some "50"; Some "400"]) = Some 400%Q
  ∧ (200 <= 400)%Q ∧ (400 <= 1000)%Q.
Proof.
  assert (get_sensor BatteryVoltage
            (validate_row (H := example_pandas)
               ["trip_id"; "timestamp"; "speed_kmph"; "battery_voltage"]
               [Some "A"; Some "1970-01-01 00:00:00"; Some "50"; Some "400"])
          = Some 400%Q) as Hstored by (vm_compute; reflexivity).
  split; [exact Hstored|].
  apply (stored_sensor_iff_in_range (H := example_pandas) _ _ BatteryVoltage
           200%Q 1000%Q 400%Q) in Hstored as (_ & Hlo & Hhi); [done|].
  apply list_elem_of_further, list_elem_of_here.
Defined.

Lemma cleaned_and_rejected_rows_witness :
  ∃ cleaned rejected ms,
    process_data (H := example_pandas) 2 fleet_csv =
      Some (TimeSeries cleaned rejected ms)
    ∧ length cleaned = 3 ∧ length rejected = 1
    ∧ Forall (λ r, is_Some (trip_id r) ∧ is_Some (timestamp r)
                   ∧ (∃ s, is_Some (get_sensor s r))
                   ∧ rejection_reasons r = "" ∧ validation_status r = "valid")
        cleaned.
Proof.
  assert (∃ cleaned rejected ms,
            process_data (H := example_pandas) 2 fleet_csv =
              Some (TimeSeries cleaned rejected ms)
            ∧ length cleaned = 3 ∧ length rejected = 1)
    as (cleaned & rejected & ms & Hrun & Hc & Hr).
  { eexists _, _, _. split; [vm_compute; reflexivity|]. split; reflexivity. }
  exists cleaned, rejected, ms. split; [exact Hrun|].
  split; [exact Hc|]. split; [exact Hr|].
  apply (cleaned_and_rejected_rows (H := example_pandas) 2 fleet_csv _ _ _ Hrun).
Defined.


Lemma metrics_rows_account_witness :
  ∃ cleaned rejected ms,
    process_data (H := example_pandas) 2 fleet_csv =
      Some (TimeSeries cleaned rejected ms)
    ∧ TripMetrics.rows <$> ms = [2; 1]
    ∧ sum_list (TripMetrics.rows <$> ms) = length cleaned.
Proof.
  assert (∃ cleaned rejected ms,
            process_data (H := example_pandas) 2 fleet_csv =
              Some (TimeSeries cleaned rejected ms)
            ∧ TripMetrics.rows <$> ms = [2; 1])
    as (cleaned & rejected & ms & Hrun & Hrows).
  { eexists _, _, _. split; [vm_compute; reflexivity | reflexivity]. }
  exists cleaned, rejected, ms. split; [exact Hrun|]. split; [exact Hrows|].
  apply (metrics_rows_account (H := example_pandas) 2 fleet_csv _ _ _ Hrun).
Defined.

Lemma duration_and_distance_nonneg_witness :
  ∃ cleaned rejected ms,
    process_data (H := example_pandas) 2 fleet_csv =
      Some (TimeSeries cleaned rejected ms)
    ∧ Forall (λ m, (0 <= TripMetrics.duration_minutes m)%Q
                   ∧ (0 <= TripMetrics.distance_km m)%Q) ms.
Proof.
  assert (∃ cleaned rejected ms,
            process_data (H := example_pandas) 2 fleet_csv =
              Some (TimeSeries cleaned rejected ms))
    as (cleaned & rejected & ms & Hrun).
  { eexists _, _, _. vm_compute; reflexivity. }
  exists cleaned, rejected, ms. split; [exact Hrun|].
  apply (duration_and_distance_nonneg (H := example_pandas) 2 fleet_csv _ _ _ Hrun).
Defined.

Lemma metrics_extrema_witness :
  ∃ m, m ∈ metrics fleet_cleaned
       ∧ TripMetrics.trip_id m = "A"
       ∧ TripMetrics.max_speed m = Some 60%Q
       ∧ extremum_of Qle (speed_kmph <$> group (TripMetrics.trip_id m) fleet_cleaned)
           (TripMetrics.max_speed m).
Proof.
  assert (∃ m, m ∈ metrics fleet_cleaned
               ∧ TripMetrics.trip_id m = "A"
               ∧ TripMetrics.max_speed m = Some 60%Q) as (m & Hm & Hid & Hmax).
  { eexists. split; [vm_compute; apply list_elem_of_here|]. split; reflexivity. }
  exists m. split; [exact Hm|]. split; [exact Hid|]. split; [exact Hmax|].
  apply (metrics_extrema fleet_cleaned m Hm).
Defined.

Lemma single_sample_trip_witness :
  ∃ m r, m ∈ metrics fleet_cleaned
         ∧ group (TripMetrics.trip_id m) fleet_cleaned = [r]
         ∧ TripMetrics.trip_id m = "B"
         ∧ TripMetrics.rows m = 1
         ∧ TripMetrics.gap_count m = 0.
Proof.
  assert (∃ m r, m ∈ metrics fleet_cleaned
                 ∧ group (TripMetrics.trip_id m) fleet_cleaned = [r]
                 ∧ TripMetrics.trip_id m = "B") as (m & r & Hm & Hg & Hid).
  { eexists _, _.
    split; [vm_compute; apply list_elem_of_further, list_elem_of_here|].
    split; [vm_compute; reflexivity | reflexivity]. }
  exists m, r. split; [exact Hm|]. split; [exact Hg|]. split; [exact Hid|].
  destruct (single_sample_trip fleet_cleaned m r Hm Hg) as (Hrows & Hgaps & _).
  split; [exact Hrows | exact Hgaps].
Defined.

Lemma path_follows_signals_witness :
  (∃ sg, sg ∈ trip_level_signals ∧ sg ∈ columns (normalize_columns two_trips_csv))
  ∧ ∃ trip_metrics_df cleaned,
      process_data (H := example_pandas) CHUNK_SIZE two_trips_csv =
        Some (TripLevel trip_metrics_df cleaned).
Proof.
  assert (∃ o, process_data (H := example_pandas) CHUNK_SIZE two_trips_csv = Some o)
    as [o Hrun] by (eexists; vm_compute; reflexivity).
  assert (∃ sg, sg ∈ trip_level_signals
                ∧ sg ∈ columns (normalize_columns two_trips_csv)) as Hsignal.
  { exists "duration_minutes". split; apply (bool_decide_unpack _); by vm_compute. }
  split; [exact Hsignal|].
  apply (path_follows_signals (H := example_pandas) _ _ _ Hrun) in Hsignal
    as (tm & cl & ->). by exists tm, cl.
Defined.

Lemma trip_level_metrics_shape_witness :
  ∃ trip_metrics_df cleaned,
    process_data (H := example_pandas) CHUNK_SIZE two_trips_csv =
      Some (TripLevel trip_metrics_df cleaned)
    ∧ columns trip_metrics_df = TRIP_LEVEL_COLUMNS
    ∧ length (rows trip_metrics_df) = length (rows cleaned).
Proof.
  assert (∃ trip_metrics_df cleaned,
            process_data (H := example_pandas) CHUNK_SIZE two_trips_csv =
              Some (TripLevel trip_metrics_df cleaned)) as (tm & cl & Hrun).
  { eexists _, _. vm_compute; reflexivity. }
  exists tm, cl. split; [exact Hrun|].
  destruct (trip_level_metrics_shape (H := example_pandas) _ _ _ _ Hrun)
    as (Hcols & Hlen & _).
  split; [exact Hcols | exact Hlen].
Defined.
